(** * Overlays: HTML overlays attached to diagram elements

    A shallow embedding of [lib/features/overlays/Overlays.js] and the
    properties of its public operations ([get], [add], [remove], [show],
    [hide]) and of its event handlers.

    Modelling conventions.
    - JavaScript numbers are rationals ([Q]); [NaN], infinities and rounding
      are outside the model.
    - A JavaScript object used as a dictionary ([_overlays],
      [_overlayContainers]) is a [gmap string _] of its own properties.
      Reading [dictionary[key]] finds an own property or, for the name of a
      property of [Object.prototype], the inherited one ([getProperty]).
      The own properties are enumerated in the order they were set in
      ([own_values]).
    - An argument that was not passed ([undefined]) is [None] for the
      element and the configuration of [add], and [SearchUndefined] for the
      search of [get] and [remove].
    - jQuery is not part of the sources at hand.  [$(html)] is a parameter
      of the environment, of which only whether it throws is kept.
    - Overlay records are mutable objects shared between the id dictionary
      and the per-element containers.  They live in a heap, a list indexed by
      object identity ([oref]); a new object is appended, so identities grow
      with allocation time.
    - Diagram elements are objects owned by the host.  An operation reads
      them through an environment [Env] (element store and element registry)
      that the host may change between two calls.
    - An overlay container is only ever referenced from the container
      dictionary, under the key it was created with, and is never dropped
      or replaced; the key stands for its identity.
    - Of the DOM only what the operations write is kept: the root's
      visibility and transform, the position of each container and the
      position and visibility of each overlay wrapper.  CSS classes (and
      with them the marker handler) are left out.
    - An array is a list value that holds the identities of the overlay
      objects, not copies of them.  The identity of the array itself is
      not modelled: that lodash [filter] and [clone] build a new array for
      [get] is not stated here.  The array of a container, which is
      updated in place, is a field of the container.
    - lodash takes [undefined] for an empty collection: [filter] returns
      an empty array for it, [forEach] does nothing, and [clone] returns
      [undefined].
    - A string is falsy when it is empty, as in JavaScript; an absent
      field is [None]. *)

From Stdlib Require Import QArith.
From stdpp Require Import gmap strings list fin_maps pretty sorting.

Local Open Scope string_scope.
Local Open Scope list_scope.
Local Close Scope Q_scope.

(** ** Values *)

Definition truthy (s : string) : bool :=
  match s with
  | EmptyString => false
  | String _ _ => true
  end.

(** [a > b] on numbers. *)
Definition Qgtb (a b : Q) : bool := negb (Qle_bool a b).
(** [a < b] on numbers. *)
Definition Qltb (a b : Q) : bool := negb (Qle_bool b a).

(** [v || 0] for a number that may be undefined. *)
Definition or_zero (v : option Q) : Q :=
  match v with
  | Some q => if Qeq_bool q 0 then 0%Q else q
  | None => 0%Q
  end.

(** ** Diagram elements (owned by the host) *)

(** The identity of an element object. *)
Abbreviation eref := nat (only parsing).

Record Point := { p_x : Q; p_y : Q }.

Record BBox := { b_x : Q; b_y : Q; b_width : Q; b_height : Q }.

Record Element := {
  e_id : string;
  e_x : Q;
  e_y : Q;
  e_width : Q;
  e_height : Q;
  e_waypoints : option (list Point)
}.

(** An element argument: an element object or an element id. *)
Inductive ElemArg :=
| EId (s : string)
| EObj (e : eref).

(** What [overlay.html] may be: markup, or a DOM node. *)
Inductive Html :=
| HtmlString (s : string)
| HtmlNode (n : nat).

(** What is thrown. *)
Inductive Exn :=
| Error (msg : string)
| TypeError.

Record Env := {
  (** [elementRegistry.get] *)
  registry_get : ElemArg -> option eref;
  (** the element objects, by identity *)
  elements : eref -> Element;
  (** [$(html)] of jQuery: the exception it throws on this argument, if it
      throws.  It wraps a node and parses markup; a string that does not
      look like markup it takes for a selector, and throws on one that is
      none. *)
  jQuery : Html -> option Exn
}.

(** ** Overlays *)

(** The identity of an overlay object. *)
Abbreviation oref := nat (only parsing).

Record Position := {
  left : option Q;
  top : option Q;
  right : option Q;
  bottom : option Q
}.

Record Show := {
  trigger : option string;
  minZoom : option Q;
  maxZoom : option Q
}.

(** The [show] field of the configuration given to [add]: not given, given
    with a falsy value, or a policy. *)
Inductive ShowArg :=
| ShowAbsent
| ShowFalsy
| ShowPolicy (s : Show).

(** The overlay configuration passed to [add]. *)
Record OverlayCfg := {
  cfg_position : option Position;
  cfg_html : option Html;
  cfg_show : ShowArg
}.

(** The wrapper node of an overlay ([overlay.htmlContainer]). *)
Record Wrapper := {
  w_left : option Q;
  w_top : option Q;
  w_hidden : bool
}.

Record Overlay := {
  ov_id : string;
  ov_type : option string;
  ov_element : option eref;
  (** [$(html)], as the html it was made of *)
  ov_html : Html;
  ov_position : Position;
  ov_show : option Show;
  ov_htmlContainer : option Wrapper
}.

Record ContainerHtml := { ch_left : option Q; ch_top : option Q }.

Record OverlayContainer := {
  c_html : ContainerHtml;
  c_element : ElemArg;
  c_overlays : list oref
}.

Record Matrix := { m_a : Q; m_b : Q; m_c : Q; m_d : Q; m_e : Q; m_f : Q }.

Record Root := {
  root_hidden : bool;
  root_transform : option Matrix
}.

(** Modelled from the spec: [util/IdGenerator] is not part of the sources at
    hand.  Ids are "generated by a monotonic counter": the generator keeps a
    prefix and a counter, and [next] increments the counter and returns the
    prefix followed by the counter in decimal. *)
Record IdGenerator := { prefix : string; counter : N }.

Definition IdGenerator_next (g : IdGenerator) : string * IdGenerator :=
  let c := (counter g + 1)%N in
  (prefix g +:+ pretty c, {| prefix := prefix g; counter := c |}).

Record Manager := {
  _ids : IdGenerator;
  _overlays : gmap string oref;
  _overlayContainers : gmap string OverlayContainer;
  _overlayRoot : Root;
  heap : list Overlay
}.

Definition _overlayDefaults : Show :=
  {| trigger := Some "automatic"; minZoom := Some (7 # 10)%Q; maxZoom := Some 5%Q |}.

(** The manager built by the constructor, for a given id generator. *)
Definition new_Overlays (g : IdGenerator) : Manager :=
  {| _ids := g;
     _overlays := ∅;
     _overlayContainers := ∅;
     _overlayRoot := {| root_hidden := false; root_transform := None |};
     heap := [] |}.

(** ** Dictionary objects *)

(** The names of the properties every object inherits from
    [Object.prototype]. *)
Definition Object_prototype : list string :=
  ["constructor"; "hasOwnProperty"; "isPrototypeOf"; "propertyIsEnumerable";
   "toLocaleString"; "toString"; "valueOf"; "__proto__";
   "__defineGetter__"; "__defineSetter__"; "__lookupGetter__"; "__lookupSetter__"].

Definition inherited (key : string) : bool := bool_decide (key ∈ Object_prototype).

(** What [dictionary[key]] reads: an own property; or a property inherited
    from [Object.prototype], which is a function (the prototype itself for
    [__proto__]): a truthy value that is no array and has none of the
    properties [id], [element], [html], [htmlContainer], [overlays]; or
    [undefined]. *)
Inductive Property (A : Type) :=
| Own (a : A)
| Inherited
| Absent.
Arguments Own {A} a.
Arguments Inherited {A}.
Arguments Absent {A}.

Definition getProperty {A} (dictionary : gmap string A) (key : string) : Property A :=
  match dictionary !! key with
  | Some a => Own a
  | None => if inherited key then Inherited else Absent
  end.

(** ** Computations: state and exceptions *)

Inductive Outcome (A : Type) :=
| Ret (a : A)
| Throw (e : Exn).
Arguments Ret {A} a.
Arguments Throw {A} e.

(** A computation returns or throws, and leaves a manager state either way. *)
Definition M (A : Type) : Type := Manager -> Outcome A * Manager.

Definition ret {A} (a : A) : M A := fun m => (Ret a, m).

Definition throw {A} (e : Exn) : M A := fun m => (Throw e, m).

Definition bind {A B} (c : M A) (k : A -> M B) : M B :=
  fun m =>
    match c m with
    | (Ret a, m') => k a m'
    | (Throw e, m') => (Throw e, m')
    end.

Definition gets {A} (f : Manager -> A) : M A := fun m => (Ret (f m), m).

(** A computation that reads the state and may throw. *)
Definition attempt {A} (f : Manager -> Outcome A) : M A := fun m => (f m, m).

Definition modify (f : Manager -> Manager) : M unit := fun m => (Ret tt, f m).

Declare Scope js_scope.
Delimit Scope js_scope with js.
Notation "x <- c ;; k" := (bind c (fun x => k))
  (at level 100, c at next level, right associativity) : js_scope.
Notation "c ;;; k" := (bind c (fun _ => k))
  (at level 100, right associativity) : js_scope.
Local Open Scope js_scope.

(** [forEach(array, f)] over an array that [f] does not change. *)
Fixpoint forEach {A} (l : list A) (f : A -> M unit) : M unit :=
  match l with
  | [] => ret tt
  | a :: l' => f a ;;; forEach l' f
  end.

(** ** State access *)

Definition set_ids (g : IdGenerator) (m : Manager) : Manager :=
  {| _ids := g; _overlays := _overlays m;
     _overlayContainers := _overlayContainers m;
     _overlayRoot := _overlayRoot m; heap := heap m |}.

Definition set_overlays (f : gmap string oref -> gmap string oref) (m : Manager) : Manager :=
  {| _ids := _ids m; _overlays := f (_overlays m);
     _overlayContainers := _overlayContainers m;
     _overlayRoot := _overlayRoot m; heap := heap m |}.

Definition set_overlayContainers
    (f : gmap string OverlayContainer -> gmap string OverlayContainer)
    (m : Manager) : Manager :=
  {| _ids := _ids m; _overlays := _overlays m;
     _overlayContainers := f (_overlayContainers m);
     _overlayRoot := _overlayRoot m; heap := heap m |}.

Definition set_overlayRoot (f : Root -> Root) (m : Manager) : Manager :=
  {| _ids := _ids m; _overlays := _overlays m;
     _overlayContainers := _overlayContainers m;
     _overlayRoot := f (_overlayRoot m); heap := heap m |}.

Definition set_heap (f : list Overlay -> list Overlay) (m : Manager) : Manager :=
  {| _ids := _ids m; _overlays := _overlays m;
     _overlayContainers := _overlayContainers m;
     _overlayRoot := _overlayRoot m; heap := f (heap m) |}.

(** Reading a property of an overlay object. *)
Definition readOverlay (o : oref) : M Overlay :=
  fun m =>
    match heap m !! o with
    | Some ov => (Ret ov, m)
    | None => (Throw TypeError, m)
    end.

(** Writing the properties of an overlay object in place. *)
Definition updateOverlayObj (o : oref) (f : Overlay -> Overlay) : M unit :=
  modify (set_heap (fun h =>
    match h !! o with
    | Some ov => <[o := f ov]> h
    | None => h
    end)).

(** A new object. *)
Definition allocOverlay (ov : Overlay) : M oref :=
  fun m => (Ret (length (heap m)), set_heap (fun h => h ++ [ov]) m).

Definition set_htmlContainer (w : option Wrapper) (ov : Overlay) : Overlay :=
  {| ov_id := ov_id ov; ov_type := ov_type ov; ov_element := ov_element ov;
     ov_html := ov_html ov; ov_position := ov_position ov;
     ov_show := ov_show ov; ov_htmlContainer := w |}.

Definition set_element (e : option eref) (ov : Overlay) : Overlay :=
  {| ov_id := ov_id ov; ov_type := ov_type ov; ov_element := e;
     ov_html := ov_html ov; ov_position := ov_position ov;
     ov_show := ov_show ov; ov_htmlContainer := ov_htmlContainer ov |}.

Definition set_c_overlays (f : list oref -> list oref) (c : OverlayContainer)
    : OverlayContainer :=
  {| c_html := c_html c; c_element := c_element c;
     c_overlays := f (c_overlays c) |}.

(** ** The operations of [Overlays] *)

Record Search := {
  s_id : option string;
  s_element : option ElemArg;
  s_type : option string
}.

(** The argument of [get] and [remove]: an id, a search record, or nothing
    ([undefined]). *)
Inductive SearchArg :=
| SearchId (s : string)
| SearchObj (q : Search)
| SearchUndefined.

(** What [get] returns: an overlay object, a property the id dictionary
    inherits from [Object.prototype], [undefined], [null], or a newly built
    array of overlay objects. *)
Inductive GetResult :=
| GOverlay (o : oref)
| GInherited
| GUndefined
| GNull
| GArray (l : list oref).

Record Viewbox := { vb_x : Q; vb_y : Q; vb_scale : Q }.

(** The second argument of [add]: a type, nothing, or the configuration
    itself. *)
Inductive TypeArg :=
| TypeStr (s : string)
| TypeNull
| TypeObj (cfg : OverlayCfg).

Definition truthy_opt (s : option string) : bool :=
  match s with
  | Some s => truthy s
  | None => false
  end.

Definition truthy_elem (a : option ElemArg) : bool :=
  match a with
  | Some (EObj _) => true
  | Some (EId s) => truthy s
  | None => false
  end.

Definition truthy_html (h : option Html) : bool :=
  match h with
  | Some (HtmlString s) => truthy s
  | Some (HtmlNode _) => true
  | None => false
  end.

(** A property read after it has been tested truthy. *)
Definition str (s : option string) : string := default "" s.

(** [(element && element.id) || element], as a dictionary key. *)
Definition containerKey (env : Env) (element : option ElemArg) : string :=
  match element with
  | None => "undefined"
  | Some (EId s) => s
  | Some (EObj e) =>
      let i := e_id (elements env e) in
      if truthy i then i else "[object Object]"
  end.

(** lodash [filter(collection, { type: t })] keeps the objects whose [type]
    is [t]. *)
Definition has_type (h : list Overlay) (t : string) (o : oref) : Prop :=
  ov_type <$> h !! o = Some (Some t).

Global Instance has_type_dec h t o : Decision (has_type h t o).
Proof. unfold has_type. apply _. Defined.

(** lodash [clone(array)]: a new array with the same items.  An array that
    is not the field of a container is no object of the manager: it is the
    list of its items. *)
Definition clone (l : list oref) : list oref := l.

(** The values of the own properties of the id dictionary, in the order
    lodash [forEach] and [filter] enumerate them in: the order the keys were
    set in.  A key is set once, by [_addOverlay], for the object [add] has
    just made, so that this is the order of the objects' creation. *)
Definition own_values (m : Manager) : list oref :=
  merge_sort le (map_to_list (_overlays m)).*2.

(** The head of [get]: [if (isString(search)) { search = { id: search }; }];
    [None] when no search was passed. *)
Definition searchObject (search : SearchArg) : option Search :=
  match search with
  | SearchId s => Some {| s_id := Some s; s_element := None; s_type := None |}
  | SearchObj q => Some q
  | SearchUndefined => None
  end.

(** [array.indexOf(o)] *)
Fixpoint indexOf (l : list oref) (o : oref) : option nat :=
  match l with
  | [] => None
  | o' :: l' => if decide (o' = o) then Some 0 else S <$> indexOf l' o
  end.

(** [idx = array.indexOf(o); if (idx !== -1) array.splice(idx, 1)] *)
Definition splice_out (o : oref) (l : list oref) : list oref :=
  match indexOf l o with
  | Some idx => delete idx l
  | None => l
  end.

(** The head of [add]: [if (isObject(type)) { overlay = type; type = null; }] *)
Definition addArgs (type : TypeArg) (overlay : option OverlayCfg)
    : option string * option OverlayCfg :=
  match type with
  | TypeObj cfg => (None, Some cfg)
  | TypeStr s => (Some s, overlay)
  | TypeNull => (None, overlay)
  end.

(** [if (!element.id) { element = this._elementRegistry.get(element); }]:
    the element [add] attaches to, if any.  Reading [id] of an element that
    was not passed throws. *)
Definition resolveElement (env : Env) (element : option ElemArg) : Outcome (option eref) :=
  match element with
  | Some (EObj e) =>
      Ret (if truthy (e_id (elements env e)) then Some e else registry_get env (EObj e))
  | Some (EId s) => Ret (registry_get env (EId s))
  | None => Throw TypeError
  end.

(** [this._ids.next()] *)
Definition _ids_next : M string :=
  fun m =>
    let '(id, g) := IdGenerator_next (_ids m) in
    (Ret id, set_ids g m).

(** [assign({}, this._overlayDefaults, overlay,
            { id: id, type: type, element: element, html: $(overlay.html) })],
    for a configuration with the given position and html. *)
Definition assignOverlay (type : option string) (overlay : OverlayCfg)
    (position : Position) (html : Html) (id : string) (element : eref) : Overlay :=
  {| ov_id := id;
     ov_type := type;
     ov_element := Some element;
     ov_html := html;
     ov_position := position;
     ov_show :=
       match cfg_show overlay with
       | ShowAbsent => Some _overlayDefaults
       | ShowFalsy => None
       | ShowPolicy s => Some s
       end;
     ov_htmlContainer := None |}.

Section Overlays.

(** [getBBox] of [util/Elements], which is not part of the sources at hand:
    the bounding box of a waypoint-bearing element. *)
Variable getBBox : Element -> BBox.

(** Reading [search.element] of a search that was not passed throws.  For
    an element whose container is an inherited property, [container.overlays]
    is [undefined]: [filter] makes an empty array of it, [clone] returns
    it. *)
Definition get (env : Env) (search : SearchArg) (m : Manager) : Outcome GetResult :=
  match searchObject search with
  | None => Throw TypeError
  | Some search =>
      Ret
        (if truthy_elem (s_element search) then
           match getProperty (_overlayContainers m) (containerKey env (s_element search)) with
           | Own container =>
               if truthy_opt (s_type search)
               then GArray (filter (has_type (heap m) (str (s_type search)))
                                   (c_overlays container))
               else GArray (clone (c_overlays container))
           | Inherited => if truthy_opt (s_type search) then GArray [] else GUndefined
           | Absent => GArray []
           end
         else if truthy_opt (s_type search) then
           GArray (filter (has_type (heap m) (str (s_type search))) (own_values m))
         else if truthy_opt (s_id search) then
           match getProperty (_overlays m) (str (s_id search)) with
           | Own o => GOverlay o
           | Inherited => GInherited
           | Absent => GUndefined
           end
         else GNull)
  end.

Definition show : M unit :=
  modify (set_overlayRoot (fun r =>
    {| root_hidden := false; root_transform := root_transform r |})).

Definition hide : M unit :=
  modify (set_overlayRoot (fun r =>
    {| root_hidden := true; root_transform := root_transform r |})).

(** The container's anchor is written into its html node; the container is
    returned as updated. *)
Definition _updateOverlayContainer (env : Env) (container : OverlayContainer)
    : OverlayContainer :=
  let '(x, y) :=
    match c_element container with
    | EId _ => (None, None)
    | EObj e =>
        let element := elements env e in
        match e_waypoints element with
        | Some _ => let bbox := getBBox element in (Some (b_x bbox), Some (b_y bbox))
        | None => (Some (e_x element), Some (e_y element))
        end
    end in
  {| c_html := {| ch_left := x; ch_top := y |};
     c_element := c_element container;
     c_overlays := c_overlays container |}.

Definition _updateOverlay (env : Env) (overlay : oref) : M unit :=
  ov <- readOverlay overlay ;;
  let position := ov_position ov in
  let htmlContainer := ov_htmlContainer ov in
  let element := ov_element ov in
  left <-
    match right position with
    | Some r =>
        match element with
        | Some e =>
            let el := elements env e in
            let width :=
              match e_waypoints el with
              | Some _ => b_width (getBBox el)
              | None => e_width el
              end in
            ret (Some (r * -1 + width)%Q)
        | None => throw TypeError
        end
    | None => ret (left position)
    end ;;
  top <-
    match bottom position with
    | Some b =>
        match element with
        | Some e =>
            let el := elements env e in
            let height :=
              match e_waypoints el with
              | Some _ => b_height (getBBox el)
              | None => e_height el
              end in
            ret (Some (b * -1 + height)%Q)
        | None => throw TypeError
        end
    | None => ret (top position)
    end ;;
  match htmlContainer with
  | Some w =>
      updateOverlayObj overlay (set_htmlContainer (Some
        {| w_left := Some (or_zero left); w_top := Some (or_zero top);
           w_hidden := w_hidden w |}))
  | None => throw TypeError
  end.

Definition _createOverlayContainer (env : Env) (element : ElemArg) : OverlayContainer :=
  _updateOverlayContainer env
    {| c_html := {| ch_left := None; ch_top := None |};
       c_element := element;
       c_overlays := [] |}.

(** The matrix [_updateRoot] builds: ['matrix(a,0,0,d,e,f)'] with
    [a = d = viewbox.scale || 1]. *)
Definition viewbox_matrix (viewbox : Viewbox) : Matrix :=
  let a := if Qeq_bool (vb_scale viewbox) 0 then 1%Q else vb_scale viewbox in
  let d := if Qeq_bool (vb_scale viewbox) 0 then 1%Q else vb_scale viewbox in
  {| m_a := a; m_b := 0; m_c := 0; m_d := d;
     m_e := (-1 * vb_x viewbox * a)%Q; m_f := (-1 * vb_y viewbox * d)%Q |}.

Definition _updateRoot (viewbox : Viewbox) : M unit :=
  modify (set_overlayRoot (fun r =>
    {| root_hidden := root_hidden r; root_transform := Some (viewbox_matrix viewbox) |})).

(** Returns the container as the key it is stored under, or what else
    [this._overlayContainers[id]] has read.  An inherited property is truthy:
    no container is made in its place, so that a key that is set names
    none.  With no element, [_createOverlayContainer] throws, reading its
    [id]. *)
Definition _getOverlayContainer (env : Env) (element : option ElemArg) (raw : bool)
    : M (Property string) :=
  let id := containerKey env element in
  container <- gets (fun m => getProperty (_overlayContainers m) id) ;;
  match container with
  | Own _ => ret (Own id)
  | Inherited => ret Inherited
  | Absent =>
      if raw then ret Absent
      else
        match element with
        | Some el =>
            modify (set_overlayContainers (insert id (_createOverlayContainer env el))) ;;;
            ret (Own id)
        | None => throw TypeError
        end
  end.

Definition _addOverlay (env : Env) (overlay : oref) : M unit :=
  ov <- readOverlay overlay ;;
  let id := ov_id ov in
  let element := ov_element ov in
  container <- _getOverlayContainer env (EObj <$> element) false ;;
  let htmlContainer := {| w_left := None; w_top := None; w_hidden := false |} in
  updateOverlayObj overlay (set_htmlContainer (Some htmlContainer)) ;;;
  match container with
  | Own k =>
      modify (set_overlayContainers (alter (set_c_overlays (fun l => l ++ [overlay])) k))
  | Inherited | Absent => throw TypeError
  end ;;;
  modify (set_overlays (insert id overlay)) ;;;
  _updateOverlay env overlay.

(** [overlay.show.minZoom > viewbox.scale || overlay.show.maxZoom < viewbox.scale];
    a comparison with a bound that is not given is false. *)
Definition zoom_outside (sh : Show) (viewbox : Viewbox) : bool :=
  from_option (fun z => Qgtb z (vb_scale viewbox)) false (minZoom sh) ||
  from_option (fun z => Qltb z (vb_scale viewbox)) false (maxZoom sh).

Definition _updateOverlayVisibilty (viewbox : Viewbox) : M unit :=
  overlays <- gets own_values ;;
  forEach overlays (fun overlay =>
    ov <- readOverlay overlay ;;
    match ov_show ov with
    | Some sh =>
        match ov_htmlContainer ov with
        | Some w =>
            updateOverlayObj overlay (set_htmlContainer (Some
              {| w_left := w_left w; w_top := w_top w;
                 w_hidden := zoom_outside sh viewbox |}))
        | None => throw TypeError
        end
    | None => ret tt
    end).


Definition add (env : Env) (element : option ElemArg) (type : TypeArg)
    (overlay : option OverlayCfg) : M string :=
  let '(type, overlay) := addArgs type overlay in
  element <- attempt (fun _ => resolveElement env element) ;;
  match overlay with
  | None => throw TypeError
  | Some overlay =>
      match cfg_position overlay with
      | None => throw (Error "must specifiy overlay position")
      | Some position =>
          match cfg_html overlay with
          | Some html =>
              if truthy_html (Some html) then
                match element with
                | None => throw (Error "invalid element specified")
                | Some e =>
                    id <- _ids_next ;;
                    match jQuery env html with
                    | Some thrown => throw thrown
                    | None => ret tt
                    end ;;;
                    o <- allocOverlay (assignOverlay type overlay position html id e) ;;
                    _addOverlay env o ;;;
                    ret id
                end
              else throw (Error "must specifiy overlay html")
          | None => throw (Error "must specifiy overlay html")
          end
      end
  end.

(** The callback [remove] runs on each overlay it has found. *)
Definition remove_overlay (env : Env) (overlay : oref) : M unit :=
  ov <- readOverlay overlay ;;
  container <- _getOverlayContainer env (EObj <$> ov_element ov) true ;;
  match ov_htmlContainer ov with
  | Some _ => ret tt
  | None => throw TypeError
  end ;;;
  updateOverlayObj overlay (fun ov => set_element None (set_htmlContainer None ov)) ;;;
  modify (set_overlays (delete (ov_id ov))) ;;;
  match container with
  | Own k =>
      modify (set_overlayContainers (alter (set_c_overlays (splice_out overlay)) k))
  | Inherited => throw TypeError
  | Absent => ret tt
  end.

(** The callback of [remove] on a property inherited from
    [Object.prototype]: its [element] is [undefined], its [html] as well,
    and [overlay.html.remove()] throws. *)
Definition remove_inherited (env : Env) : M unit :=
  _getOverlayContainer env None true ;;;
  throw TypeError.

(** [overlays = this.get(filter) || []], made an array if it is none, and
    the callback run on each item. *)
Definition remove (env : Env) (filter : SearchArg) : M unit :=
  r <- attempt (get env filter) ;;
  match r with
  | GArray l => forEach l (remove_overlay env)
  | GOverlay o => forEach [o] (remove_overlay env)
  | GInherited => remove_inherited env
  | GUndefined | GNull => forEach [] (remove_overlay env)
  end.

(** ** Event handlers registered by [_init] *)

(** The viewbox update that [_init] runs immediately or debounced. *)
Definition updateViewbox (viewbox : Viewbox) : M unit :=
  _updateRoot viewbox ;;;
  _updateOverlayVisibilty viewbox ;;;
  show.

(** [shape.remove], [connection.remove].  Where [get] has returned
    [undefined], [forEach] has nothing to do. *)
Definition on_element_remove (env : Env) (element : eref) : M unit :=
  r <- attempt (get env (SearchObj
         {| s_id := None; s_element := Some (EObj element); s_type := None |})) ;;
  let overlays := match r with GArray l => l | _ => [] end in
  forEach overlays (fun o =>
    ov <- readOverlay o ;;
    remove env (SearchId (ov_id ov))).

(** [element.changed] *)
Definition on_element_changed (env : Env) (element : eref) : M unit :=
  container <- _getOverlayContainer env (Some (EObj element)) true ;;
  match container with
  | Own k =>
      overlays <- gets (fun m => from_option c_overlays [] (_overlayContainers m !! k)) ;;
      forEach overlays (fun overlay => _updateOverlay env overlay) ;;;
      modify (set_overlayContainers (alter (_updateOverlayContainer env) k))
  | Inherited =>
      (* [forEach] of [container.overlays], which is [undefined], runs
         nothing; [_updateOverlayContainer] reads [x] of [container.element],
         which is [undefined] *)
      throw TypeError
  | Absent => ret tt
  end.

End Overlays.

(** ** Viewbox changes in time *)

(** [config.overlays]: [deferUpdate] may be left out. *)
Record Config := { deferUpdate : option bool }.

(** [!config || config.deferUpdate !== false] *)
Definition deferred (config : option Config) : bool :=
  match config with
  | Some {| deferUpdate := Some false |} => false
  | _ => true
  end.

(** The debounce window of [_init], in milliseconds. *)
Definition wait : N := 300.

(** Modelled from the spec: lodash [debounce] is not part of the sources at
    hand.  It "coalesces rapid repeated triggers into one delayed execution
    using the latest arguments" and "cancels/replaces the pending trailing
    call rather than queuing multiple": a debounced function holds at most
    one pending call, its arguments and the time it is due; a call replaces
    it and makes it due [wait] after the call.

    The world of the manager: its state, the clock-driven pending call of
    the debounced [updateViewbox], and the viewboxes
    [_updateOverlayVisibilty] has been called with, oldest first. *)
Record World := {
  mgr : Manager;
  pending : option (N * Viewbox);
  passes : list Viewbox
}.

Definition new_World (m : Manager) : World :=
  {| mgr := m; pending := None; passes := [] |}.

Section Events.

(** [self._updateOverlayVisibilty(viewbox)] is called: the pass runs on
    the manager, and the call is recorded. *)
Definition call_updateOverlayVisibilty (viewbox : Viewbox) (w : World)
    : Outcome unit * World :=
  let '(r, m) := _updateOverlayVisibilty viewbox (mgr w) in
  (r, {| mgr := m; pending := pending w; passes := passes w ++ [viewbox] |}).

(** [updateViewbox(viewbox)] runs: the root is updated, the visibility pass
    is called, the root is shown; an exception ends it. *)
Definition run_updateViewbox (viewbox : Viewbox) (w : World) : World :=
  let '(r, m) := _updateRoot viewbox (mgr w) in
  let w := {| mgr := m; pending := pending w; passes := passes w |} in
  match r with
  | Ret _ =>
      let '(r, w) := call_updateOverlayVisibilty viewbox w in
      match r with
      | Ret _ => {| mgr := snd (show (mgr w)); pending := pending w; passes := passes w |}
      | Throw _ => w
      end
  | Throw _ => w
  end.

(** Time passes until [t]: a pending call that is due runs. *)
Definition elapse (t : N) (w : World) : World :=
  match pending w with
  | Some (due, viewbox) =>
      if (due <=? t)%N
      then run_updateViewbox viewbox
             {| mgr := mgr w; pending := None; passes := passes w |}
      else w
  | None => w
  end.

(** The handler of [canvas.viewbox.changed], run on a world. *)
Definition on_viewbox_changed (config : option Config) (t : N) (viewbox : Viewbox)
    (w : World) : World :=
  let w := {| mgr := snd (hide (mgr w)); pending := pending w; passes := passes w |} in
  if deferred config
  then {| mgr := mgr w; pending := Some ((t + wait)%N, viewbox); passes := passes w |}
  else run_updateViewbox viewbox w.

(** A [canvas.viewbox.changed] event fired at time [t]. *)
Definition viewbox_changed_at (config : option Config) (t : N) (viewbox : Viewbox)
    (w : World) : World :=
  on_viewbox_changed config t viewbox (elapse t w).

(** Events fired one after the other, each with its time. *)
Definition fire_all (config : option Config) (events : list (N * Viewbox)) (w : World)
    : World :=
  foldl (fun w ev => viewbox_changed_at config ev.1 ev.2 w) w events.

End Events.

(** The wrapper of an overlay object, if the object has one. *)
Definition wrapper_of (m : Manager) (o : oref) : option Wrapper :=
  heap m !! o ≫= ov_htmlContainer.

(** An overlay is displayed when neither its wrapper nor the overlay root,
    which the wrapper is nested in, is hidden. *)
Definition displayed (m : Manager) (o : oref) : bool :=
  negb (root_hidden (_overlayRoot m)) &&
  match wrapper_of m o with
  | Some w => negb (w_hidden w)
  | None => false
  end.

(** ** Calls and runs *)

(** What the host does with a manager: the public operations and the events
    the manager listens to ([EvViewbox] is the viewbox update itself, be it
    run at once or by the debounce timer). *)
Inductive Call :=
| CallAdd (element : option ElemArg) (type : TypeArg) (overlay : option OverlayCfg)
| CallRemove (filter : SearchArg)
| CallShow
| CallHide
| EvViewbox (viewbox : Viewbox)
| EvElementRemove (element : eref)
| EvElementChanged (element : eref).

Section Runs.

Variable getBBox : Element -> BBox.

(** A call returns the new id for [add] and nothing otherwise. *)
Definition exec (env : Env) (c : Call) : M (option string) :=
  match c with
  | CallAdd element type overlay =>
      id <- add getBBox env element type overlay ;; ret (Some id)
  | CallRemove filter => remove getBBox env filter ;;; ret None
  | CallShow => show ;;; ret None
  | CallHide => hide ;;; ret None
  | EvViewbox viewbox => updateViewbox viewbox ;;; ret None
  | EvElementRemove element => on_element_remove getBBox env element ;;; ret None
  | EvElementChanged element => on_element_changed getBBox env element ;;; ret None
  end.

(** Calls made one after the other, each in the environment of its time.
    An exception ends the call it is thrown in, not the run.  The result
    lists the ids the calls to [add] returned, oldest first. *)
Fixpoint run (calls : list (Env * Call)) (m : Manager) : list string * Manager :=
  match calls with
  | [] => ([], m)
  | (env, c) :: calls' =>
      let '(r, m') := exec env c m in
      let '(ids, m'') := run calls' m' in
      (match r with Ret (Some id) => id :: ids | _ => ids end, m'')
  end.

End Runs.

(** The host never changes the id of an element object. *)
Definition same_ids (env env' : Env) : Prop :=
  forall e, e_id (elements env' e) = e_id (elements env e).

(** ** Well-formed manager states *)

(** What holds of a manager between two calls: the id dictionary and the
    containers hold the same overlay objects, each object under its own id
    and in the container of its element; a container lists its overlays in
    the order they were created in; the ids still to come are unused. *)
Record Inv (env : Env) (m : Manager) : Prop := {
  inv_overlays : forall i o, _overlays m !! i = Some o ->
    exists ov e w c,
      heap m !! o = Some ov /\ ov_id ov = i /\ ov_element ov = Some e /\
      ov_htmlContainer ov = Some w /\
      _overlayContainers m !! containerKey env (Some (EObj e)) = Some c /\
      o ∈ c_overlays c;
  inv_containers : forall k c o, _overlayContainers m !! k = Some c ->
    o ∈ c_overlays c ->
    exists ov e,
      heap m !! o = Some ov /\ _overlays m !! ov_id ov = Some o /\
      ov_element ov = Some e /\ containerKey env (Some (EObj e)) = k;
  inv_sorted : forall k c, _overlayContainers m !! k = Some c ->
    StronglySorted lt (c_overlays c);
  inv_fresh : forall n, (counter (_ids m) < n)%N ->
    _overlays m !! (prefix (_ids m) +:+ pretty n) = None;
  inv_nonempty : _overlays m !! "" = None
}.

(** The state [remove_overlay] leaves when it does not throw. *)
Definition removed (env : Env) (o : oref) (m : Manager) : Manager :=
  match heap m !! o with
  | Some ov =>
      {| _ids := _ids m;
         _overlays := delete (ov_id ov) (_overlays m);
         _overlayContainers :=
           alter (set_c_overlays (splice_out o))
                 (containerKey env (EObj <$> ov_element ov)) (_overlayContainers m);
         _overlayRoot := _overlayRoot m;
         heap := <[o := set_element None (set_htmlContainer None ov)]> (heap m) |}
  | None => m
  end.

(** * A worked example

    One shape with two overlays, used to run the operations on concrete
    inputs. *)

Module Example.

Definition bbox (el : Element) : BBox :=
  {| b_x := 0; b_y := 0; b_width := 40; b_height := 30 |}.

Definition shape : Element :=
  {| e_id := "shape1"; e_x := 10; e_y := 20; e_width := 100; e_height := 80;
     e_waypoints := None |}.

(** The same shape after the host has made it wider and higher. *)
Definition shape_resized : Element :=
  {| e_id := "shape1"; e_x := 10; e_y := 20; e_width := 140; e_height := 90;
     e_waypoints := None |}.

Definition registry (a : ElemArg) : option nat :=
  match a with
  | EId "shape1" => Some 0
  | _ => None
  end.

(** jQuery wraps a node and parses markup.  [Hello!], which is neither
    markup nor a selector, it refuses. *)
Definition jquery (html : Html) : option Exn :=
  match html with
  | HtmlString "Hello!" => Some (Error "Syntax error, unrecognized expression: Hello!")
  | _ => None
  end.

Definition env : Env :=
  {| registry_get := registry; elements := fun _ => shape; jQuery := jquery |}.

Definition env_resized : Env :=
  {| registry_get := registry; elements := fun _ => shape_resized; jQuery := jquery |}.

Definition m0 : Manager := new_Overlays {| prefix := "ov-"; counter := 0 |}.

Definition badge : OverlayCfg :=
  {| cfg_position :=
       Some {| left := None; top := Some 5%Q; right := Some 10%Q; bottom := None |};
     cfg_html := Some (HtmlString "<div>0</div>");
     cfg_show := ShowPolicy
       {| trigger := Some "manual"; minZoom := Some 1%Q; maxZoom := Some 2%Q |} |}.

Definition note : OverlayCfg :=
  {| cfg_position :=
       Some {| left := Some 0%Q; top := None; right := None; bottom := Some 4%Q |};
     cfg_html := Some (HtmlNode 7);
     cfg_show := ShowAbsent |}.



(** The badge object, as [add] leaves it. *)
Definition badge_object : Overlay :=
  set_htmlContainer
    (Some {| w_left := Some 90%Q; w_top := Some 5%Q; w_hidden := false |})
    (assignOverlay (Some "badge") badge
       {| left := None; top := Some 5%Q; right := Some 10%Q; bottom := None |}
       (HtmlString "<div>0</div>") "ov-1" 0).

(** After [add('shape1', 'badge', badge)]. *)
Definition m1 : Manager :=
  (add bbox env (Some (EId "shape1")) (TypeStr "badge") (Some badge) m0).2.

(** After [add(shape, note)] as well. *)
Definition m2 : Manager := (add bbox env (Some (EObj 0)) (TypeObj note) None m1).2.

Definition by_element (type : option string) : Search :=
  {| s_id := None; s_element := Some (EId "shape1"); s_type := type |}.

Definition zoomed_out : Viewbox := {| vb_x := 0; vb_y := 0; vb_scale := 3 |}.

End Example.

Section Properties.

Variable getBBox : Element -> BBox.

(** The width and height [_updateOverlay] measures an element with. *)
Definition elementWidth (env : Env) (e : eref) : Q :=
  let el := elements env e in
  match e_waypoints el with
  | Some _ => b_width (getBBox el)
  | None => e_width el
  end.

Definition elementHeight (env : Env) (e : eref) : Q :=
  let el := elements env e in
  match e_waypoints el with
  | Some _ => b_height (getBBox el)
  | None => e_height el
  end.

Definition effective_left (env : Env) (e : eref) (p : Position) : option Q :=
  match right p with
  | Some r => Some (r * -1 + elementWidth env e)%Q
  | None => left p
  end.

Definition effective_top (env : Env) (e : eref) (p : Position) : option Q :=
  match bottom p with
  | Some b => Some (b * -1 + elementHeight env e)%Q
  | None => top p
  end.

(** The wrapper as [_updateOverlay] leaves it. *)
Definition placed (env : Env) (e : eref) (p : Position) (w : Wrapper) : Wrapper :=
  {| w_left := Some (or_zero (effective_left env e p));
     w_top := Some (or_zero (effective_top env e p));
     w_hidden := w_hidden w |}.

(** The state [_addOverlay] leaves for the object [o] with fields [ov],
    attached to [e]. *)
Definition added (env : Env) (o : oref) (ov : Overlay) (e : eref) (m : Manager) : Manager :=
  let k := containerKey env (Some (EObj e)) in
  let c0 := default (_createOverlayContainer getBBox env (EObj e)) (_overlayContainers m !! k) in
  {| _ids := _ids m;
     _overlays := <[ov_id ov := o]> (_overlays m);
     _overlayContainers :=
       <[k := set_c_overlays (fun l => l ++ [o]) c0]> (_overlayContainers m);
     _overlayRoot := _overlayRoot m;
     heap := <[o := set_htmlContainer
                      (Some (placed env e (ov_position ov)
                               {| w_left := None; w_top := None; w_hidden := false |})) ov]>
               (heap m) |}.

(** A computation keeps a part of the state when it leaves it as it found
    it, whether it returns or throws. *)
Definition keeps {A B} (proj : Manager -> B) (c : M A) : Prop :=
  forall m, proj (c m).2 = proj m.

(** An overlay object is live while the id dictionary holds it. *)
Definition live (m : Manager) (o : oref) : Prop :=
  exists i, _overlays m !! i = Some o.

(** [m'] is [m] without the overlays of [l]: they are gone from the id
    dictionary and from the containers, and nothing else has moved. *)
Definition without (l : list oref) (m m' : Manager) : Prop :=
  _ids m' = _ids m /\
  _overlayRoot m' = _overlayRoot m /\
  (forall i o, _overlays m' !! i = Some o <-> _overlays m !! i = Some o /\ o ∉ l) /\
  (forall k, is_Some (_overlayContainers m' !! k) <-> is_Some (_overlayContainers m !! k)) /\
  (forall k c c', _overlayContainers m !! k = Some c -> _overlayContainers m' !! k = Some c' ->
     c_overlays c' = filter (fun o => o ∉ l) (c_overlays c)).

(** What [_updateOverlay] does to an overlay object that has an element
    and a wrapper. *)
Definition reposition (env : Env) (ov : Overlay) : Overlay :=
  match ov_element ov, ov_htmlContainer ov with
  | Some e, Some w => set_htmlContainer (Some (placed env e (ov_position ov) w)) ov
  | _, _ => ov
  end.

(** What [_updateOverlayVisibilty] does to an overlay object that has a
    wrapper. *)
Definition reconcile (viewbox : Viewbox) (ov : Overlay) : Overlay :=
  match ov_show ov, ov_htmlContainer ov with
  | Some sh, Some w =>
      set_htmlContainer
        (Some {| w_left := w_left w; w_top := w_top w;
                 w_hidden := zoom_outside sh viewbox |}) ov
  | _, _ => ov
  end.

(** Objects [_updateOverlay] and [_updateOverlayVisibilty] do not throw on. *)
Definition attached (ov : Overlay) : Prop :=
  is_Some (ov_element ov) /\ is_Some (ov_htmlContainer ov).

(** A wrapper is anchored for a position: with [right] given its left
    offset is the element's width minus [right], and with [bottom] given its
    top offset is the element's height minus [bottom]. *)
Definition anchored (env : Env) (e : eref) (p : Position) (w : Wrapper) : Prop :=
  (forall r, right p = Some r ->
     exists l, w_left w = Some l /\ (l == elementWidth env e - r)%Q) /\
  (forall b, bottom p = Some b ->
     exists t, w_top w = Some t /\ (t == elementHeight env e - b)%Q).

(** Events that follow an event fired at [t0], each less than the debounce
    window after the one before. *)
Fixpoint burst_from (t0 : N) (events : list (N * Viewbox)) : Prop :=
  match events with
  | [] => True
  | ev :: events' => (t0 <= ev.1 < t0 + wait)%N /\ burst_from ev.1 events'
  end.

(** The states a manager can be in: those a run of calls leads to from a new
    manager, the host leaving the ids of the elements as they are in [env]. *)
Definition reachable (env : Env) (m : Manager) : Prop :=
  exists g calls,
    Forall (fun call => same_ids env call.1) calls /\
    m = (run getBBox calls (new_Overlays g)).2.

(** The overlays [remove] iterates over, for what [get] has returned:
    [overlays = this.get(filter) || []; if (!isArray(overlays)) overlays = [ overlays ]]. *)
Definition found (r : GetResult) : list oref :=
  match r with
  | GArray l => l
  | GOverlay o => [o]
  | GInherited | GUndefined | GNull => []
  end.

(** The own keys of the two dictionaries name no property of
    [Object.prototype]. *)
Definition Inv_own (m : Manager) : Prop :=
  (forall i, is_Some (_overlays m !! i) -> inherited i = false) /\
  (forall k, is_Some (_overlayContainers m !! k) -> inherited k = false).

(** CSS [matrix(a, b, c, d, e, f)] applied to a point. *)
Definition apply_matrix (mx : Matrix) (p : Q * Q) : Q * Q :=
  ((m_a mx * p.1 + m_c mx * p.2 + m_e mx)%Q,
   (m_b mx * p.1 + m_d mx * p.2 + m_f mx)%Q).

(** Where [_updateOverlayContainer] anchors the container of an element
    object. *)
Definition anchor (env : Env) (e : eref) : ContainerHtml :=
  let el := elements env e in
  match e_waypoints el with
  | Some _ => {| ch_left := Some (b_x (getBBox el)); ch_top := Some (b_y (getBBox el)) |}
  | None => {| ch_left := Some (e_x el); ch_top := Some (e_y el) |}
  end.

(** Every container belongs to an element object filed under its key. *)
Definition Inv_elements (env : Env) (m : Manager) : Prop :=
  forall k c, _overlayContainers m !! k = Some c ->
    exists e, c_element c = EObj e /\ containerKey env (Some (EObj e)) = k.

(** A generated id ends in a digit, and so names no property of
    [Object.prototype]: [this._overlays[id] = overlay] makes an own
    property. *)
Fixpoint ends_in_digit (s : string) : bool :=
  match s with
  | "" => false
  | String a s' =>
      match s' with
      | "" => bool_decide (a ∈ String.list_ascii_of_string "0123456789")
      | String _ _ => ends_in_digit s'
      end
  end.

(** * Properties *)

(** ** Running computations *)

Lemma insert_snoc_last {A} (l : list A) (x y : A) :
  <[length l := y]> (l ++ [x]) = l ++ [y].
Proof. rewrite insert_app_r_alt by lia. by rewrite Nat.sub_diag. Qed.

Lemma _updateOverlay_spec env o m ov e w :
  heap m !! o = Some ov -> ov_element ov = Some e -> ov_htmlContainer ov = Some w ->
  _updateOverlay getBBox env o m =
    (Ret tt, set_heap (insert o (set_htmlContainer (Some (placed env e (ov_position ov) w)) ov)) m).
Proof.
  intros Ho He Hw. unfold _updateOverlay, bind, readOverlay. rewrite Ho, He, Hw.
  unfold placed, effective_left, effective_top, elementWidth, elementHeight.
  destruct (right (ov_position ov)), (bottom (ov_position ov)); cbn;
    unfold updateOverlayObj, modify, set_heap; cbn; rewrite Ho; reflexivity.
Qed.


Lemma bind_Ret {A B} (c : M A) (k : A -> M B) m a m' :
  c m = (Ret a, m') -> bind c k m = k a m'.
Proof. unfold bind. by intros ->. Qed.

Lemma readOverlay_Some o m ov :
  heap m !! o = Some ov -> readOverlay o m = (Ret ov, m).
Proof. unfold readOverlay. by intros ->. Qed.

Lemma updateOverlayObj_Some o f m ov :
  heap m !! o = Some ov ->
  updateOverlayObj o f m = (Ret tt, set_heap (insert o (f ov)) m).
Proof. unfold updateOverlayObj, modify, set_heap. by intros ->. Qed.

Lemma getProperty_Some {A} (d : gmap string A) k a :
  d !! k = Some a -> getProperty d k = Own a.
Proof. unfold getProperty. by intros ->. Qed.

Lemma getProperty_None {A} (d : gmap string A) k :
  d !! k = None -> getProperty d k = if inherited k then Inherited else Absent.
Proof. unfold getProperty. by intros ->. Qed.

Lemma getProperty_Own {A} (d : gmap string A) k a :
  getProperty d k = Own a <-> d !! k = Some a.
Proof.
  unfold getProperty. destruct (d !! k); [|by destruct (inherited k)].
  split; congruence.
Qed.

Lemma getProperty_Inherited {A} (d : gmap string A) k :
  getProperty d k = Inherited <-> d !! k = None /\ inherited k = true.
Proof.
  unfold getProperty. destruct (d !! k); [by split; [|intros []]|].
  destruct (inherited k); by split; [|intros []].
Qed.

Lemma getProperty_Absent {A} (d : gmap string A) k :
  getProperty d k = Absent <-> d !! k = None /\ inherited k = false.
Proof.
  unfold getProperty. destruct (d !! k); [by split; [|intros []]|].
  destruct (inherited k); by split; [|intros []].
Qed.

Lemma Inherited_dec {A} (x : Property A) : {x = Inherited} + {x <> Inherited}.
Proof. destruct x; (by left) || (by right). Qed.

Lemma GInherited_dec (r : GetResult) : {r = GInherited} + {r <> GInherited}.
Proof. destruct r; (by left) || (by right). Qed.

(** The key of a container, or what else the lookup has read. *)
Lemma _getOverlayContainer_raw env el m :
  _getOverlayContainer getBBox env el true m =
    (Ret match getProperty (_overlayContainers m) (containerKey env el) with
         | Own _ => Own (containerKey env el)
         | Inherited => Inherited
         | Absent => Absent
         end, m).
Proof.
  unfold _getOverlayContainer, bind, gets.
  by destruct (getProperty (_overlayContainers m) (containerKey env el)).
Qed.

Lemma _getOverlayContainer_inherited env el raw m :
  getProperty (_overlayContainers m) (containerKey env el) = Inherited ->
  _getOverlayContainer getBBox env el raw m = (Ret Inherited, m).
Proof. intros Hk. unfold _getOverlayContainer, bind, gets. by rewrite Hk. Qed.

Lemma _getOverlayContainer_create env e m :
  let k := containerKey env (Some (EObj e)) in
  getProperty (_overlayContainers m) k <> Inherited ->
  _getOverlayContainer getBBox env (Some (EObj e)) false m =
    (Ret (Own k),
     set_overlayContainers
       (insert k (default (_createOverlayContainer getBBox env (EObj e))
                          (_overlayContainers m !! k))) m).
Proof.
  intros k Hk. unfold _getOverlayContainer, bind, gets. fold k.
  destruct (getProperty (_overlayContainers m) k) as [c| |] eqn:Hc; [|done|].
  - apply getProperty_Own in Hc. rewrite Hc.
    unfold ret, set_overlayContainers. change (default _ (Some c)) with c.
    rewrite insert_id by done. by destruct m.
  - apply getProperty_Absent in Hc as [Hc _]. by rewrite Hc.
Qed.

Lemma _addOverlay_spec env o m ov e :
  heap m !! o = Some ov -> ov_element ov = Some e ->
  getProperty (_overlayContainers m) (containerKey env (Some (EObj e))) <> Inherited ->
  _addOverlay getBBox env o m = (Ret tt, added env o ov e m).
Proof.
  intros Ho He Hown. pose proof (lookup_lt_Some _ _ _ Ho) as Hlt.
  set (w0 := {| w_left := None; w_top := None; w_hidden := false |}).
  unfold _addOverlay.
  rewrite (bind_Ret _ _ _ _ _ (readOverlay_Some _ _ _ Ho)), He.
  change (EObj <$> Some e) with (Some (EObj e)).
  rewrite (bind_Ret _ _ _ _ _ (_getOverlayContainer_create _ _ _ Hown)).
  erewrite bind_Ret; [|by apply updateOverlayObj_Some].
  erewrite bind_Ret; [|reflexivity].
  erewrite bind_Ret; [|reflexivity].
  erewrite _updateOverlay_spec with (ov := set_htmlContainer (Some w0) ov) (w := w0) (e := e);
    [|by apply list_lookup_insert_eq|done|done].
  f_equal. unfold added, set_heap, set_overlays, set_overlayContainers; cbn.
  f_equal.
  - by rewrite <- alter_insert_eq.
  - by rewrite list_insert_insert_eq.
Qed.

(** [add] when nothing throws. *)
Lemma add_spec env element type overlay m ty cfg e p h :
  addArgs type overlay = (ty, Some cfg) ->
  resolveElement env element = Ret (Some e) ->
  cfg_position cfg = Some p ->
  cfg_html cfg = Some h ->
  truthy_html (Some h) = true ->
  jQuery env h = None ->
  getProperty (_overlayContainers m) (containerKey env (Some (EObj e))) <> Inherited ->
  let id := (IdGenerator_next (_ids m)).1 in
  let ov := assignOverlay ty cfg p h id e in
  add getBBox env element type overlay m =
    (Ret id,
     added env (length (heap m)) ov e
       (set_heap (fun l => l ++ [ov]) (set_ids (IdGenerator_next (_ids m)).2 m))).
Proof.
  intros Hargs He Hp Hh Ht Hjq Hown id ov. unfold add. rewrite Hargs.
  erewrite bind_Ret; [|unfold attempt; by rewrite He].
  rewrite Hp, Hh, Ht.
  erewrite bind_Ret; [|reflexivity].
  rewrite Hjq.
  erewrite bind_Ret; [|reflexivity].
  erewrite bind_Ret; [|reflexivity].
  erewrite bind_Ret; [reflexivity|].
  apply _addOverlay_spec; [|done|done].
  cbn. apply list_lookup_middle. done.
Qed.

(** [add] when jQuery throws: the id is used up. *)
Lemma add_jQuery_throws env element type overlay m ty cfg e p h x :
  addArgs type overlay = (ty, Some cfg) ->
  resolveElement env element = Ret (Some e) ->
  cfg_position cfg = Some p ->
  cfg_html cfg = Some h ->
  truthy_html (Some h) = true ->
  jQuery env h = Some x ->
  add getBBox env element type overlay m =
    (Throw x, set_ids (IdGenerator_next (_ids m)).2 m).
Proof.
  intros Hargs He Hp Hh Ht Hjq. unfold add. rewrite Hargs.
  erewrite bind_Ret; [|unfold attempt; by rewrite He].
  rewrite Hp, Hh, Ht.
  erewrite bind_Ret; [|reflexivity].
  by rewrite Hjq.
Qed.

(** [add] for an element whose id names a property of [Object.prototype]:
    the id is used up and the overlay object made, and pushing it to
    [container.overlays] throws. *)
Lemma add_inherited_throws env element type overlay m ty cfg e p h :
  addArgs type overlay = (ty, Some cfg) ->
  resolveElement env element = Ret (Some e) ->
  cfg_position cfg = Some p ->
  cfg_html cfg = Some h ->
  truthy_html (Some h) = true ->
  jQuery env h = None ->
  getProperty (_overlayContainers m) (containerKey env (Some (EObj e))) = Inherited ->
  let id := (IdGenerator_next (_ids m)).1 in
  let ov := set_htmlContainer (Some {| w_left := None; w_top := None; w_hidden := false |})
              (assignOverlay ty cfg p h id e) in
  add getBBox env element type overlay m =
    (Throw TypeError,
     set_heap (fun l => l ++ [ov]) (set_ids (IdGenerator_next (_ids m)).2 m)).
Proof.
  intros Hargs He Hp Hh Ht Hjq Hk id ov. unfold add. rewrite Hargs.
  erewrite bind_Ret; [|unfold attempt; by rewrite He].
  rewrite Hp, Hh, Ht.
  erewrite bind_Ret; [|reflexivity].
  rewrite Hjq.
  erewrite bind_Ret; [|reflexivity].
  erewrite bind_Ret; [|reflexivity].
  unfold _addOverlay.
  set (m1 := set_heap _ _).
  assert (Ho : heap m1 !! length (heap m) = Some (assignOverlay ty cfg p h id e)).
  { cbn. by apply list_lookup_middle. }
  unfold bind at 1.
  rewrite (bind_Ret _ _ _ _ _ (readOverlay_Some _ _ _ Ho)).
  cbn [ov_element assignOverlay]. change (EObj <$> Some e) with (Some (EObj e)).
  rewrite (bind_Ret _ _ _ _ _ (_getOverlayContainer_inherited _ _ _ m1 Hk)).
  erewrite bind_Ret; [|by apply updateOverlayObj_Some].
  unfold bind, throw. cbn. f_equal. unfold set_heap; cbn. f_equal.
  by rewrite insert_snoc_last.
Qed.


(** ** Parts of the state a computation does not touch *)

Lemma keeps_ret {A B} (proj : Manager -> B) (a : A) : keeps proj (ret a).
Proof. by intros m. Qed.

Lemma keeps_throw {A B} (proj : Manager -> B) e : keeps proj (@throw A e).
Proof. by intros m. Qed.

Lemma keeps_gets {A B} (proj : Manager -> B) (f : Manager -> A) : keeps proj (gets f).
Proof. by intros m. Qed.

Lemma keeps_attempt {A B} (proj : Manager -> B) (f : Manager -> Outcome A) :
  keeps proj (attempt f).
Proof. by intros m. Qed.

Lemma keeps_modify {B} (proj : Manager -> B) f :
  (forall m, proj (f m) = proj m) -> keeps proj (modify f).
Proof. intros H m. apply H. Qed.

Lemma keeps_bind {A A' B} (proj : Manager -> B) (c : M A) (k : A -> M A') :
  keeps proj c -> (forall a, keeps proj (k a)) -> keeps proj (bind c k).
Proof.
  intros Hc Hk m. unfold bind. specialize (Hc m).
  destruct (c m) as [[a|e] m1]; cbn in *; [|done].
  by rewrite Hk.
Qed.

Lemma keeps_forEach {A B} (proj : Manager -> B) (l : list A) f :
  (forall a, keeps proj (f a)) -> keeps proj (forEach l f).
Proof.
  intros Hf. induction l as [|a l IH]; cbn.
  - apply keeps_ret.
  - apply keeps_bind; auto.
Qed.

Lemma keeps_readOverlay {B} (proj : Manager -> B) o : keeps proj (readOverlay o).
Proof. intros m. unfold readOverlay. by destruct (heap m !! o). Qed.

Lemma keeps_match_option {A A' B} (proj : Manager -> B) (x : option A')
    (c1 : A' -> M A) (c2 : M A) :
  (forall a, keeps proj (c1 a)) -> keeps proj c2 ->
  keeps proj (match x with Some a => c1 a | None => c2 end).
Proof. by destruct x. Qed.

Create HintDb keeps.
#[local] Hint Resolve keeps_ret keeps_throw keeps_gets keeps_attempt keeps_bind
  keeps_forEach keeps_readOverlay keeps_match_option : keeps.

Lemma keeps_ids_updateOverlayObj o f : keeps _ids (updateOverlayObj o f).
Proof. by apply keeps_modify. Qed.

Lemma keeps_ids_modify_overlays f : keeps _ids (modify (set_overlays f)).
Proof. by apply keeps_modify. Qed.

Lemma keeps_ids_modify_containers f : keeps _ids (modify (set_overlayContainers f)).
Proof. by apply keeps_modify. Qed.

Lemma keeps_ids_modify_root f : keeps _ids (modify (set_overlayRoot f)).
Proof. by apply keeps_modify. Qed.

#[local] Hint Resolve keeps_ids_updateOverlayObj keeps_ids_modify_overlays
  keeps_ids_modify_containers keeps_ids_modify_root : keeps.

Lemma keeps_ids__getOverlayContainer env el raw :
  keeps _ids (_getOverlayContainer getBBox env el raw).
Proof.
  unfold _getOverlayContainer. apply keeps_bind; [auto with keeps|].
  intros [c| |]; [auto with keeps..|]. destruct raw; [auto with keeps|].
  destruct el; auto with keeps.
Qed.

Lemma keeps_ids__updateOverlay env o : keeps _ids (_updateOverlay getBBox env o).
Proof.
  unfold _updateOverlay.
  apply keeps_bind; [auto with keeps|]. intros ov.
  apply keeps_bind.
  { destruct (right (ov_position ov)); [destruct (ov_element ov)|]; auto with keeps. }
  intros l. apply keeps_bind.
  { destruct (bottom (ov_position ov)); [destruct (ov_element ov)|]; auto with keeps. }
  intros t. destruct (ov_htmlContainer ov); auto with keeps.
Qed.

Lemma keeps_ids_remove_overlay env o : keeps _ids (remove_overlay getBBox env o).
Proof.
  unfold remove_overlay.
  apply keeps_bind; [auto with keeps|]. intros ov.
  apply keeps_bind; [apply keeps_ids__getOverlayContainer|]. intros c.
  apply keeps_bind; [destruct (ov_htmlContainer ov); auto with keeps|]. intros _.
  destruct c; auto 10 with keeps.
Qed.

Lemma keeps_ids_remove env filter : keeps _ids (remove getBBox env filter).
Proof.
  unfold remove. apply keeps_bind; [auto with keeps|]. intros r.
  destruct r; try (apply keeps_forEach; intros ?; apply keeps_ids_remove_overlay).
  unfold remove_inherited. apply keeps_bind; [apply keeps_ids__getOverlayContainer|].
  auto with keeps.
Qed.

Lemma keeps_ids_on_element_remove env e : keeps _ids (on_element_remove getBBox env e).
Proof.
  unfold on_element_remove. apply keeps_bind; [auto with keeps|]. intros r.
  apply keeps_forEach. intros o. apply keeps_bind; [auto with keeps|].
  intros ov. apply keeps_ids_remove.
Qed.

Lemma keeps_ids_on_element_changed env e : keeps _ids (on_element_changed getBBox env e).
Proof.
  unfold on_element_changed.
  apply keeps_bind; [apply keeps_ids__getOverlayContainer|].
  intros [k| |]; [|auto with keeps..].
  apply keeps_bind; [auto with keeps|]. intros l.
  apply keeps_bind; [|auto with keeps].
  apply keeps_forEach. intros o. apply keeps_ids__updateOverlay.
Qed.

Lemma keeps_ids__updateOverlayVisibilty vb : keeps _ids (_updateOverlayVisibilty vb).
Proof.
  unfold _updateOverlayVisibilty. apply keeps_bind; [auto with keeps|]. intros l.
  apply keeps_forEach. intros o. apply keeps_bind; [auto with keeps|]. intros ov.
  destruct (ov_show ov); [|auto with keeps].
  destruct (ov_htmlContainer ov); auto with keeps.
Qed.

Lemma keeps_ids_updateViewbox vb : keeps _ids (updateViewbox vb).
Proof.
  unfold updateViewbox, _updateRoot, show.
  apply keeps_bind; [auto with keeps|]. intros _.
  apply keeps_bind; [apply keeps_ids__updateOverlayVisibilty|]. auto with keeps.
Qed.

(** ** Generated ids *)

Lemma pretty_N_go_length x s : String.length s <= String.length (pretty_N_go x s).
Proof.
  revert s. induction (N.lt_wf_0 x) as [x _ IH]; intros s.
  destruct (decide (x = 0%N)) as [->|Hx]; [by rewrite pretty_N_go_0|].
  rewrite pretty_N_go_step by lia.
  etrans; [|apply IH, N.div_lt; lia]. cbn. lia.
Qed.

Lemma truthy_pretty_N (n : N) : truthy (pretty n) = true.
Proof.
  unfold pretty, pretty_N. case_decide as Hn; [done|].
  rewrite pretty_N_go_step by lia.
  pose proof (pretty_N_go_length (n `div` 10)
                (String (pretty_N_char (n `mod` 10)) "")) as Hlen.
  destruct (pretty_N_go _ _); [cbn in Hlen; lia|done].
Qed.

Lemma truthy_app_r s t : truthy t = true -> truthy (s +:+ t) = true.
Proof. by destruct s. Qed.

Lemma truthy_next_id g : truthy (IdGenerator_next g).1 = true.
Proof. apply truthy_app_r, truthy_pretty_N. Qed.

Lemma ends_in_digit_app s t : t <> "" -> ends_in_digit (s +:+ t) = ends_in_digit t.
Proof.
  intros Ht. induction s as [|a s IH]; [done|].
  change (String a s +:+ t) with (String a (s +:+ t)).
  cbn [ends_in_digit]. rewrite IH.
  destruct (s +:+ t) eqn:Hst; [|done].
  destruct s; [|done]. exfalso. by apply Ht.
Qed.

Lemma ends_in_digit_pretty_N_char x : ends_in_digit (String (pretty_N_char x) "") = true.
Proof. compute. by repeat case_match. Qed.

Lemma ends_in_digit_pretty_N_go x s :
  ends_in_digit s = true -> ends_in_digit (pretty_N_go x s) = true.
Proof.
  revert s. induction (N.lt_wf_0 x) as [x _ IH]; intros s Hs.
  destruct (decide (x = 0%N)) as [->|Hx]; [by rewrite pretty_N_go_0|].
  rewrite pretty_N_go_step by lia. apply IH; [apply N.div_lt; lia|].
  by destruct s as [|a s].
Qed.

Lemma ends_in_digit_pretty_N (n : N) : ends_in_digit (pretty n) = true.
Proof.
  unfold pretty, pretty_N. case_decide as Hn; [done|].
  rewrite pretty_N_go_step by lia.
  apply ends_in_digit_pretty_N_go, ends_in_digit_pretty_N_char.
Qed.

Lemma next_id_own g : inherited (IdGenerator_next g).1 = false.
Proof.
  cbn. apply bool_decide_eq_false. intros Hin.
  assert (Hd : ends_in_digit (prefix g +:+ pretty (counter g + 1)%N) = true).
  { rewrite ends_in_digit_app; [apply ends_in_digit_pretty_N|].
    intros Heq. pose proof (truthy_pretty_N (counter g + 1)%N) as Ht. by rewrite Heq in Ht. }
  unfold Object_prototype in Hin.
  repeat (apply elem_of_cons in Hin as [Heq|Hin]; [by rewrite Heq in Hd|]).
  by apply elem_of_nil in Hin.
Qed.

Lemma id_of_counter_inj p (n n' : N) : p +:+ pretty n = p +:+ pretty n' -> n = n'.
Proof. intros H. by apply (inj pretty), (inj (String.app p)). Qed.

Lemma add_cases env element type overlay m :
  (exists e, add getBBox env element type overlay m = (Throw e, m)) \/
  (exists ty cfg e p h,
     addArgs type overlay = (ty, Some cfg) /\
     resolveElement env element = Ret (Some e) /\
     cfg_position cfg = Some p /\
     cfg_html cfg = Some h /\
     truthy_html (Some h) = true).
Proof.
  unfold add. destruct (addArgs type overlay) as [ty overlay'] eqn:Hargs.
  unfold bind at 1, attempt.
  destruct (resolveElement env element) as [r|x] eqn:He; [|by eauto].
  destruct overlay' as [cfg|]; [|by eauto].
  destruct (cfg_position cfg) as [p|] eqn:Hp; [|by eauto].
  destruct (cfg_html cfg) as [h|] eqn:Hh; [|by eauto].
  destruct (truthy_html (Some h)) eqn:Ht; [|by eauto].
  destruct r as [e|]; [|by eauto].
  right. by exists ty, cfg, e, p, h.
Qed.

(** The three ways [add] ends once its arguments have passed the checks. *)
Lemma add_checked env element type overlay m ty cfg e p h :
  addArgs type overlay = (ty, Some cfg) ->
  resolveElement env element = Ret (Some e) ->
  cfg_position cfg = Some p ->
  cfg_html cfg = Some h ->
  truthy_html (Some h) = true ->
  let id := (IdGenerator_next (_ids m)).1 in
  let m1 := set_ids (IdGenerator_next (_ids m)).2 m in
  let ov := assignOverlay ty cfg p h id e in
  (exists x, jQuery env h = Some x /\
     add getBBox env element type overlay m = (Throw x, m1)) \/
  (jQuery env h = None /\
   getProperty (_overlayContainers m) (containerKey env (Some (EObj e))) = Inherited /\
   add getBBox env element type overlay m =
     (Throw TypeError,
      set_heap (fun l => l ++ [set_htmlContainer
                                 (Some {| w_left := None; w_top := None; w_hidden := false |})
                                 ov]) m1)) \/
  (jQuery env h = None /\
   getProperty (_overlayContainers m) (containerKey env (Some (EObj e))) <> Inherited /\
   add getBBox env element type overlay m =
     (Ret id, added env (length (heap m)) ov e (set_heap (fun l => l ++ [ov]) m1))).
Proof.
  intros Hargs He Hp Hh Ht id m1 ov.
  destruct (jQuery env h) as [x|] eqn:Hjq.
  { left. exists x. split; [done|]. by eapply add_jQuery_throws. }
  right.
  destruct (getProperty (_overlayContainers m) (containerKey env (Some (EObj e))))
    as [c| |] eqn:Hk.
  - right. split_and!; [done|done|]. eapply add_spec; try done. by rewrite Hk.
  - left. split_and!; [done|done|]. by eapply add_inherited_throws.
  - right. split_and!; [done|done|]. eapply add_spec; try done. by rewrite Hk.
Qed.

(** What is known when [add] has returned. *)
Lemma add_Ret env element type overlay m id m1 :
  add getBBox env element type overlay m = (Ret id, m1) ->
  exists ty cfg e p h,
    addArgs type overlay = (ty, Some cfg) /\
    resolveElement env element = Ret (Some e) /\
    cfg_position cfg = Some p /\
    cfg_html cfg = Some h /\
    truthy_html (Some h) = true /\
    jQuery env h = None /\
    getProperty (_overlayContainers m) (containerKey env (Some (EObj e))) <> Inherited /\
    add getBBox env element type overlay m =
      (Ret (IdGenerator_next (_ids m)).1,
       added env (length (heap m))
         (assignOverlay ty cfg p h (IdGenerator_next (_ids m)).1 e) e
         (set_heap (fun l => l ++ [assignOverlay ty cfg p h (IdGenerator_next (_ids m)).1 e])
            (set_ids (IdGenerator_next (_ids m)).2 m))).
Proof.
  intros Hadd.
  destruct (add_cases env element type overlay m)
    as [[x Hx]|(ty & cfg & e & p & h & Hargs & He & Hp & Hh & Ht)]; [congruence|].
  exists ty, cfg, e, p, h.
  destruct (add_checked env element type overlay m ty cfg e p h Hargs He Hp Hh Ht)
    as [(x & _ & Hx)|[(_ & _ & Hx)|(Hjq & Hown & Hx)]]; [congruence..|].
  by split_and!.
Qed.

Lemma exec_ids env c m :
  let r := (exec getBBox env c m).1 in
  let m' := (exec getBBox env c m).2 in
  prefix (_ids m') = prefix (_ids m) /\
  (counter (_ids m) <= counter (_ids m') <= counter (_ids m) + 1)%N /\
  match r with
  | Ret (Some id) =>
      counter (_ids m') = (counter (_ids m) + 1)%N /\
      id = prefix (_ids m) +:+ pretty (counter (_ids m'))
  | _ => True
  end.
Proof.
  assert (Hk : forall (c : M unit), keeps _ids c ->
            let r := ((c ;;; ret None) m).1 in
            let m' := ((c ;;; ret (@None string)) m).2 in
            prefix (_ids m') = prefix (_ids m) /\
            (counter (_ids m) <= counter (_ids m') <= counter (_ids m) + 1)%N /\
            match r with
            | Ret (Some id) =>
                counter (_ids m') = (counter (_ids m) + 1)%N /\
                id = prefix (_ids m) +:+ pretty (counter (_ids m'))
            | _ => True
            end).
  { intros c0 Hc. specialize (Hc m). unfold bind.
    destruct (c0 m) as [[[]|e] m1]; cbn in *; rewrite Hc; split_and!; (done || lia). }
  destruct c as [element type overlay|filter| | |vb|e|e]; cbn [exec].
  - destruct (add_cases env element type overlay m)
      as [[e He]|(ty & cfg & e & p & h & Hargs & He & Hp & Hh & Ht)].
    + unfold bind. rewrite He. cbn. split_and!; (done || lia).
    + unfold bind.
      destruct (add_checked env element type overlay m ty cfg e p h Hargs He Hp Hh Ht)
        as [(x & _ & ->)|[(_ & _ & ->)|(_ & _ & ->)]]; cbn; split_and!; (done || lia).
  - apply Hk, keeps_ids_remove.
  - apply Hk. unfold show. auto with keeps.
  - apply Hk. unfold hide. auto with keeps.
  - apply Hk, keeps_ids_updateViewbox.
  - apply Hk, keeps_ids_on_element_remove.
  - apply Hk, keeps_ids_on_element_changed.
Qed.

Lemma run_ids calls : forall m,
  let ids := (run getBBox calls m).1 in
  let m' := (run getBBox calls m).2 in
  prefix (_ids m') = prefix (_ids m) /\
  (counter (_ids m) <= counter (_ids m'))%N /\
  exists ns,
    ids = (fun n : N => prefix (_ids m) +:+ pretty n) <$> ns /\
    StronglySorted N.lt ns /\
    Forall (fun n => counter (_ids m) < n <= counter (_ids m'))%N ns.
Proof.
  induction calls as [|[env c] calls IH]; intros m; cbn.
  - repeat split; [lia|]. exists []. repeat split; constructor.
  - pose proof (exec_ids env c m) as (Hp & Hc & Hr). cbn in Hp, Hc, Hr.
    destruct (exec getBBox env c m) as [r m1]. cbn in Hp, Hc, Hr.
    specialize (IH m1). cbn in IH. destruct (run getBBox calls m1) as [ids m2].
    cbn in IH. destruct IH as (Hp' & Hc' & ns & -> & Hs & Hall). rewrite Hp in *.
    assert (Hall' : Forall (fun n => counter (_ids m) < n <= counter (_ids m2))%N ns).
    { eapply Forall_impl; [exact Hall|]. cbn. lia. }
    destruct r as [[id|]|e]; cbn.
    + destruct Hr as [Hc1 ->]. repeat split; [done|lia|].
      exists (counter (_ids m1) :: ns). repeat split.
      * constructor; [done|]. eapply Forall_impl; [exact Hall|]. cbn. lia.
      * constructor; [lia|done].
    + repeat split; [done|lia|]. by exists ns.
    + repeat split; [done|lia|]. by exists ns.
Qed.


(** ** Lists of overlays *)

Lemma splice_out_cons o x l :
  splice_out o (x :: l) = if decide (x = o) then l else x :: splice_out o l.
Proof.
  unfold splice_out. cbn. case_decide; [done|].
  by destruct (indexOf l o).
Qed.

Lemma splice_out_notin o l : o ∉ l -> splice_out o l = l.
Proof.
  induction l as [|x l IH]; [done|].
  rewrite not_elem_of_cons, splice_out_cons. intros [Hne Hl].
  case_decide; [congruence|]. by rewrite IH.
Qed.

Lemma elem_of_splice_out_ne o o' l : o' <> o -> o' ∈ splice_out o l <-> o' ∈ l.
Proof.
  intros Hne. induction l as [|x l IH]; [done|].
  rewrite splice_out_cons. case_decide as Hx.
  - subst x. rewrite elem_of_cons. split; [auto|]. by intros [?|?].
  - rewrite !elem_of_cons, IH. done.
Qed.

Lemma splice_out_subseteq o l : splice_out o l ⊆ l.
Proof.
  induction l as [|x l IH]; [done|].
  rewrite splice_out_cons. intros y Hy. case_decide.
  - by apply elem_of_cons; right.
  - apply elem_of_cons in Hy as [->|Hy]; apply elem_of_cons; [by left|right; by apply IH].
Qed.

Lemma StronglySorted_splice_out o l :
  StronglySorted lt l -> StronglySorted lt (splice_out o l).
Proof.
  induction 1 as [|x l Hs IH Hall]; [constructor|].
  rewrite splice_out_cons. case_decide; [done|].
  constructor; [done|].
  rewrite Forall_forall in Hall |- *. intros y Hy. by apply Hall, (splice_out_subseteq o).
Qed.

Lemma StronglySorted_lt_NoDup (l : list nat) : StronglySorted lt l -> NoDup l.
Proof.
  induction 1 as [|x l Hs IH Hall]; constructor; [|done].
  intros Hin. rewrite Forall_forall in Hall. specialize (Hall _ Hin). lia.
Qed.

Lemma not_elem_of_splice_out o l : StronglySorted lt l -> o ∉ splice_out o l.
Proof.
  induction 1 as [|x l Hs IH Hall]; [apply not_elem_of_nil|].
  rewrite splice_out_cons. case_decide as Hx.
  - subst x. intros Hin. rewrite Forall_forall in Hall. specialize (Hall _ Hin). lia.
  - rewrite not_elem_of_cons. split; [congruence|done].
Qed.

Lemma StronglySorted_snoc_lt (l : list nat) (n : nat) :
  StronglySorted lt l -> Forall (fun x => x < n) l -> StronglySorted lt (l ++ [n]).
Proof.
  intros Hs Hall. apply StronglySorted_app. split; [|split; [done|repeat constructor]].
  intros x y Hx Hy. apply list_elem_of_singleton in Hy as ->.
  rewrite Forall_forall in Hall. by apply Hall.
Qed.

(** ** The invariant holds at the start and is kept *)

Lemma Inv_new env g : Inv env (new_Overlays g).
Proof.
  split; cbn; intros *; try (by rewrite lookup_empty); done.
Qed.

Lemma containerKey_same_ids env env' e :
  same_ids env env' ->
  containerKey env' (Some (EObj e)) = containerKey env (Some (EObj e)).
Proof. intros H. cbn. by rewrite H. Qed.

Lemma Inv_same_ids env env' m : same_ids env env' -> Inv env m -> Inv env' m.
Proof.
  intros Hs [H1 H2 H3 H4 H5]. split; try done.
  - intros i o Ho. destruct (H1 i o Ho) as (ov & e & w & c & ? & ? & ? & ? & ? & ?).
    exists ov, e, w, c. by rewrite (containerKey_same_ids env env').
  - intros k c o Hk Ho. destruct (H2 k c o Hk Ho) as (ov & e & ? & ? & ? & ?).
    exists ov, e. by rewrite (containerKey_same_ids env env').
Qed.

(** A state that differs in the styling only: same ids, same dictionary,
    same lists in the containers, and objects that kept their id and
    element and their wrapper if they had one. *)
Lemma Inv_restyled env m m' :
  _ids m' = _ids m ->
  _overlays m' = _overlays m ->
  (forall k, c_overlays <$> _overlayContainers m' !! k =
             c_overlays <$> _overlayContainers m !! k) ->
  (forall o ov, heap m !! o = Some ov ->
     exists ov', heap m' !! o = Some ov' /\ ov_id ov' = ov_id ov /\
                 ov_element ov' = ov_element ov /\
                 (is_Some (ov_htmlContainer ov) -> is_Some (ov_htmlContainer ov'))) ->
  Inv env m -> Inv env m'.
Proof.
  intros Hi Ho Hc Hh [H1 H2 H3 H4 H5].
  assert (Hc' : forall k c', _overlayContainers m' !! k = Some c' ->
            exists c, _overlayContainers m !! k = Some c /\ c_overlays c = c_overlays c').
  { intros k c' Hk. specialize (Hc k). rewrite Hk in Hc. cbn in Hc.
    destruct (_overlayContainers m !! k) as [c|]; [|done]. exists c. by injection Hc. }
  assert (Hc'' : forall k c, _overlayContainers m !! k = Some c ->
            exists c', _overlayContainers m' !! k = Some c' /\ c_overlays c = c_overlays c').
  { intros k c Hk. specialize (Hc k). rewrite Hk in Hc. cbn in Hc.
    destruct (_overlayContainers m' !! k) as [c'|]; [|done]. exists c'. by injection Hc. }
  split; rewrite ?Hi, ?Ho; try done.
  - intros i o Hio. destruct (H1 i o Hio) as (ov & e & w & c & Hov & ? & ? & Hw & Hk & ?).
    destruct (Hh o ov Hov) as (ov' & ? & ? & ? & Hw').
    destruct Hw' as [w' ?]; [by rewrite Hw|].
    destruct (Hc'' _ _ Hk) as (c' & ? & Heq).
    exists ov', e, w', c'. rewrite <- Heq. repeat split; congruence || done.
  - intros k c' o Hk Hin. destruct (Hc' _ _ Hk) as (c & Hk0 & Heq).
    rewrite <- Heq in Hin. destruct (H2 k c o Hk0 Hin) as (ov & e & Hov & ? & ? & ?).
    destruct (Hh o ov Hov) as (ov' & ? & ? & ? & _).
    exists ov', e. repeat split; congruence || done.
  - intros k c' Hk. destruct (Hc' _ _ Hk) as (c & Hk0 & Heq). rewrite <- Heq. eauto.
Qed.

Lemma Inv_lt env m k c o :
  Inv env m -> _overlayContainers m !! k = Some c -> o ∈ c_overlays c ->
  o < length (heap m).
Proof.
  intros HI Hk Ho. destruct (inv_containers _ _ HI k c o Hk Ho) as (ov & e & Hov & _).
  by eapply lookup_lt_Some.
Qed.

Lemma c_overlays__updateOverlayContainer env c :
  c_overlays (_updateOverlayContainer getBBox env c) = c_overlays c.
Proof.
  unfold _updateOverlayContainer.
  destruct (c_element c) as [s|e]; [done|].
  by destruct (e_waypoints (elements env e)).
Qed.

Lemma c_overlays__createOverlayContainer env el :
  c_overlays (_createOverlayContainer getBBox env el) = [].
Proof. unfold _createOverlayContainer. by rewrite c_overlays__updateOverlayContainer. Qed.

(** A state in which ids have been used up and objects made, and nothing
    else has changed. *)
Lemma Inv_grown env m m' :
  prefix (_ids m') = prefix (_ids m) ->
  (counter (_ids m) <= counter (_ids m'))%N ->
  _overlays m' = _overlays m ->
  _overlayContainers m' = _overlayContainers m ->
  (forall o ov, heap m !! o = Some ov -> heap m' !! o = Some ov) ->
  Inv env m -> Inv env m'.
Proof.
  intros Hp Hc Ho Hk Hh [H1 H2 H3 H4 H5]. split; rewrite ?Ho, ?Hk, ?Hp; try done.
  - intros i o Hio. destruct (H1 i o Hio) as (ov & e & w & c & Hov & ?).
    exists ov, e, w, c. split; [by apply Hh|done].
  - intros k c o Hkc Hin. destruct (H2 k c o Hkc Hin) as (ov & e & Hov & ?).
    exists ov, e. split; [by apply Hh|done].
  - intros n Hn. apply H4. lia.
Qed.

Lemma add_Inv env element type overlay m :
  Inv env m -> Inv env (add getBBox env element type overlay m).2.
Proof.
  intros HI.
  destruct (add_cases env element type overlay m)
    as [[e He]|(ty & cfg & e & p & h & Hargs & He & Hp & Hh & Ht)]; [by rewrite He|].
  destruct (add_checked env element type overlay m ty cfg e p h Hargs He Hp Hh Ht)
    as [(x & _ & ->)|[(_ & _ & ->)|(_ & _ & ->)]].
  { apply (Inv_grown env m); [done|cbn; lia|done|done|done|exact HI]. }
  { apply (Inv_grown env m); [done|cbn; lia|done|done| |exact HI].
    intros o ov Hov. cbn. by apply lookup_app_l_Some. }
  unfold added, set_heap, set_ids, IdGenerator_next;
    cbn [_ids _overlays _overlayContainers _overlayRoot heap fst snd prefix counter
         ov_id ov_position assignOverlay].
  rewrite insert_snoc_last.
  set (id := prefix (_ids m) +:+ pretty (counter (_ids m) + 1)%N).
  set (o := length (heap m)).
  set (k := containerKey env (Some (EObj e))).
  set (ov' := set_htmlContainer _ _).
  set (c0 := default _ _).
  assert (Hfresh : _overlays m !! id = None) by (apply (inv_fresh _ _ HI); lia).
  assert (Hold : forall o', o' < o -> (heap m ++ [ov']) !! o' = heap m !! o').
  { intros o' Hlt. by apply lookup_app_l. }
  assert (Hc0 : forall o', o' ∈ c_overlays c0 ->
            exists c, _overlayContainers m !! k = Some c /\ c0 = c /\ o' ∈ c_overlays c).
  { intros o' Hin. subst c0. destruct (_overlayContainers m !! k) as [c|]; cbn in *.
    - by exists c.
    - rewrite c_overlays__createOverlayContainer in Hin. by apply elem_of_nil in Hin. }
  split; cbn [_ids _overlays _overlayContainers _overlayRoot heap prefix counter].
  - intros i o' Hio. destruct (decide (i = id)) as [->|Hne].
    + rewrite lookup_insert_eq in Hio. injection Hio as <-.
      eexists ov', e, _, _. split_and!.
      * by apply list_lookup_middle.
      * reflexivity.
      * reflexivity.
      * reflexivity.
      * fold k. apply lookup_insert_eq.
      * cbn. apply elem_of_app. right. by apply list_elem_of_singleton.
    + rewrite lookup_insert_ne in Hio by done.
      destruct (inv_overlays _ _ HI i o' Hio) as (ov1 & e1 & w1 & c1 & Hov & ? & ? & ? & Hk1 & Hin).
      destruct (decide (containerKey env (Some (EObj e1)) = k)) as [Hk|Hk].
      * exists ov1, e1, w1, (set_c_overlays (fun l => l ++ [o]) c0).
        rewrite Hold by (by eapply lookup_lt_Some). split_and!; try done.
        -- rewrite Hk. apply lookup_insert_eq.
        -- cbn. apply elem_of_app. left. subst c0. rewrite Hk in Hk1. by rewrite Hk1.
      * exists ov1, e1, w1, c1.
        rewrite Hold by (by eapply lookup_lt_Some). split_and!; try done.
        by rewrite lookup_insert_ne.
  - intros k' c' o' Hk' Hin.
    assert (Hcase : o' = o /\ k' = k \/
              exists c, _overlayContainers m !! k' = Some c /\ o' ∈ c_overlays c).
    { destruct (decide (k' = k)) as [->|Hne].
      - rewrite lookup_insert_eq in Hk'. injection Hk' as <-. cbn in Hin.
        apply elem_of_app in Hin as [Hin|Hin].
        + right. destruct (Hc0 _ Hin) as (c & ? & ? & ?). by exists c.
        + left. by apply list_elem_of_singleton in Hin.
      - rewrite lookup_insert_ne in Hk' by done. right. by exists c'. }
    destruct Hcase as [[-> ->]|(c & Hk0 & Hin0)].
    + exists ov', e. split_and!; [by apply list_lookup_middle|apply lookup_insert_eq|done|done].
    + destruct (inv_containers _ _ HI k' c o' Hk0 Hin0) as (ov2 & e2 & Hov & Hid & ? & ?).
      exists ov2, e2. rewrite Hold by (by eapply lookup_lt_Some). split_and!; try done.
      rewrite lookup_insert_ne; [done|]. intros Heq. congruence.
  - intros k' c' Hk'. destruct (decide (k' = k)) as [->|Hne].
    + rewrite lookup_insert_eq in Hk'. injection Hk' as <-. cbn.
      apply StronglySorted_snoc_lt.
      * subst c0. destruct (_overlayContainers m !! k) as [c|] eqn:Hk0; cbn.
        -- by eapply (inv_sorted _ _ HI).
        -- rewrite c_overlays__createOverlayContainer. constructor.
      * apply Forall_forall. intros o' Hin. destruct (Hc0 _ Hin) as (c & Hk0 & _ & Hin0).
        by eapply Inv_lt.
    + rewrite lookup_insert_ne in Hk' by done. by eapply (inv_sorted _ _ HI).
  - intros n Hn. rewrite lookup_insert_ne.
    + apply (inv_fresh _ _ HI). lia.
    + intros Heq. apply id_of_counter_inj in Heq. lia.
  - rewrite lookup_insert_ne; [apply (inv_nonempty _ _ HI)|].
    intros Heq. pose proof (truthy_next_id (_ids m)) as Hid. cbn in Hid. fold id in Hid.
    by rewrite Heq in Hid.
Qed.

(** ** Removing *)

Lemma remove_overlay_spec env o m ov :
  heap m !! o = Some ov -> is_Some (ov_htmlContainer ov) ->
  getProperty (_overlayContainers m) (containerKey env (EObj <$> ov_element ov))
    <> Inherited ->
  remove_overlay getBBox env o m = (Ret tt, removed env o m).
Proof.
  intros Ho [w Hw] Hown. unfold remove_overlay.
  rewrite (bind_Ret _ _ _ _ _ (readOverlay_Some _ _ _ Ho)).
  rewrite (bind_Ret _ _ _ _ _ (_getOverlayContainer_raw _ _ _)).
  rewrite Hw. erewrite bind_Ret; [|reflexivity].
  erewrite bind_Ret; [|by apply updateOverlayObj_Some].
  erewrite bind_Ret; [|reflexivity].
  unfold removed. rewrite Ho.
  destruct (getProperty (_overlayContainers m) _) as [c| |] eqn:Hk; [|done|].
  - reflexivity.
  - apply getProperty_Absent in Hk as [Hk _].
    unfold ret, set_overlays, set_heap. cbn. do 2 f_equal.
    symmetry. apply map_eq. intros k'. rewrite lookup_alter.
    case_decide as Hkk; [|done]. subst k'. by rewrite Hk.
Qed.

(** What [Inv] says of an overlay of the id dictionary. *)
Lemma Inv_live env m i o :
  Inv env m -> _overlays m !! i = Some o ->
  exists ov e c,
    heap m !! o = Some ov /\ ov_id ov = i /\ ov_element ov = Some e /\
    is_Some (ov_htmlContainer ov) /\
    _overlayContainers m !! containerKey env (Some (EObj e)) = Some c /\
    o ∈ c_overlays c /\
    removed env o m =
      {| _ids := _ids m;
         _overlays := delete i (_overlays m);
         _overlayContainers :=
           <[containerKey env (Some (EObj e)) := set_c_overlays (splice_out o) c]>
             (_overlayContainers m);
         _overlayRoot := _overlayRoot m;
         heap := <[o := set_element None (set_htmlContainer None ov)]> (heap m) |}.
Proof.
  intros HI Hio.
  destruct (inv_overlays _ _ HI i o Hio) as (ov & e & w & c & Hov & Hid & He & Hw & Hk & Hin).
  exists ov, e, c. split_and!; try done.
  unfold removed. rewrite Hov, He, Hid. f_equal.
  cbn [fmap option_fmap option_map]. apply map_eq. intros k'.
  rewrite lookup_alter, lookup_insert. case_decide as Hkk; [|done].
  subst k'. by rewrite Hk.
Qed.

Lemma removed_Inv env m i o :
  Inv env m -> _overlays m !! i = Some o -> Inv env (removed env o m).
Proof.
  intros HI Hio.
  destruct (Inv_live _ _ _ _ HI Hio) as (ov & e & c & Hov & Hid & He & Hw & Hk & Hin & ->).
  set (k := containerKey env (Some (EObj e))) in *.
  assert (Hother : forall i' o', i' <> i -> _overlays m !! i' = Some o' -> o' <> o).
  { intros i' o' Hne Hio' ->.
    destruct (inv_overlays _ _ HI i' o Hio') as (ov1 & _ & _ & _ & Hov1 & Hid1 & _).
    congruence. }
  split; cbn [_ids _overlays _overlayContainers _overlayRoot heap].
  - intros i' o' Hio'. apply lookup_delete_Some in Hio' as [Hne Hio'].
    pose proof (Hother _ _ (not_eq_sym Hne) Hio') as Hno.
    destruct (inv_overlays _ _ HI i' o' Hio') as (ov1 & e1 & w1 & c1 & Hov1 & ? & ? & ? & Hk1 & Hin1).
    destruct (decide (containerKey env (Some (EObj e1)) = k)) as [Hkk|Hkk].
    + exists ov1, e1, w1, (set_c_overlays (splice_out o) c).
      rewrite list_lookup_insert_ne by done. split_and!; try done.
      * rewrite Hkk. apply lookup_insert_eq.
      * cbn. apply elem_of_splice_out_ne; [done|]. rewrite Hkk in Hk1. congruence.
    + exists ov1, e1, w1, c1.
      rewrite list_lookup_insert_ne by done. split_and!; try done.
      by rewrite lookup_insert_ne.
  - intros k' c' o' Hk' Hin'.
    assert (Hcase : exists c0, _overlayContainers m !! k' = Some c0 /\
                               o' ∈ c_overlays c0 /\ o' <> o).
    { destruct (decide (k' = k)) as [->|Hne].
      - rewrite lookup_insert_eq in Hk'. injection Hk' as <-. cbn in Hin'.
        exists c. split_and!; [done|by apply (splice_out_subseteq o)|].
        intros ->. revert Hin'. apply not_elem_of_splice_out. by eapply (inv_sorted _ _ HI).
      - rewrite lookup_insert_ne in Hk' by done. exists c'. split_and!; [done|done|].
        intros ->. destruct (inv_containers _ _ HI k' c' o Hk' Hin') as (ov2 & e2 & Hov2 & _ & He2 & Hk2).
        apply Hne. rewrite <- Hk2. unfold k. congruence. }
    destruct Hcase as (c0 & Hk0 & Hin0 & Hno).
    destruct (inv_containers _ _ HI k' c0 o' Hk0 Hin0) as (ov2 & e2 & Hov2 & Hid2 & ? & ?).
    exists ov2, e2. rewrite list_lookup_insert_ne by done. split_and!; try done.
    rewrite lookup_delete_ne; [done|]. intros Heq. congruence.
  - intros k' c' Hk'. destruct (decide (k' = k)) as [->|Hne].
    + rewrite lookup_insert_eq in Hk'. injection Hk' as <-. cbn.
      apply StronglySorted_splice_out. by eapply (inv_sorted _ _ HI).
    + rewrite lookup_insert_ne in Hk' by done. by eapply (inv_sorted _ _ HI).
  - intros n Hn. apply lookup_delete_None. right. by apply (inv_fresh _ _ HI).
  - apply lookup_delete_None. right. apply (inv_nonempty _ _ HI).
Qed.

Lemma filter_all {A} (P : A -> Prop) `{!forall x, Decision (P x)} (l : list A) :
  Forall P l -> filter P l = l.
Proof.
  induction 1 as [|x l Hx Hl IH]; [done|].
  by rewrite filter_cons_True, IH.
Qed.

Lemma splice_out_filter o l :
  StronglySorted lt l -> splice_out o l = filter (fun o' => o' ∉ [o]) l.
Proof.
  induction 1 as [|x l Hs IH Hall]; [done|].
  rewrite splice_out_cons, filter_cons. case_decide as Hx.
  - subst x. rewrite decide_False by (intros Hn; apply Hn, list_elem_of_singleton; done).
    symmetry. apply filter_all. eapply Forall_impl; [exact Hall|].
    cbn. intros y Hy Hin. apply list_elem_of_singleton in Hin. lia.
  - rewrite decide_True; [by rewrite IH|].
    intros Hin. by apply list_elem_of_singleton in Hin.
Qed.

Lemma without_nil m : without [] m m.
Proof.
  split_and!; try done.
  - intros i o. split; [|by intros [? _]]. intros H. split; [done|apply not_elem_of_nil].
  - intros k c c' Hc Hc'. rewrite Hc in Hc'. injection Hc' as <-.
    symmetry. apply filter_all, Forall_forall. intros o _. apply not_elem_of_nil.
Qed.

Lemma without_removed env m i o :
  Inv env m -> _overlays m !! i = Some o -> without [o] m (removed env o m).
Proof.
  intros HI Hio.
  destruct (Inv_live _ _ _ _ HI Hio) as (ov & e & c & Hov & Hid & He & Hw & Hk & Hin & ->).
  split_and!; cbn [_ids _overlays _overlayContainers _overlayRoot heap]; try done.
  - intros i' o'. rewrite lookup_delete_Some, list_elem_of_singleton. split.
    + intros [Hne Hio']. split; [done|]. intros ->.
      destruct (inv_overlays _ _ HI i' o Hio') as (ov1 & _ & _ & _ & Hov1 & Hid1 & _).
      congruence.
    + intros [Hio' Hne]. split; [|done]. intros <-. congruence.
  - intros k'. rewrite lookup_insert. case_decide as Hkk; [|done].
    subst k'. rewrite Hk. split; by eauto.
  - intros k' c0 c' Hk0 Hk'. rewrite lookup_insert in Hk'. case_decide as Hkk.
    + subst k'. injection Hk' as <-. cbn. assert (c0 = c) as -> by congruence.
      apply splice_out_filter. by eapply (inv_sorted _ _ HI).
    + assert (c' = c0) as -> by congruence.
      symmetry. apply filter_all, Forall_forall. intros o' Hin' Ho'.
      apply list_elem_of_singleton in Ho' as ->.
      destruct (inv_containers _ _ HI k' c0 o Hk0 Hin') as (ov2 & e2 & Hov2 & _ & He2 & Hk2).
      apply Hkk. rewrite <- Hk2. congruence.
Qed.

Lemma without_cons o l m m1 m2 :
  without [o] m m1 -> without l m1 m2 -> without (o :: l) m m2.
Proof.
  intros (Hi1 & Hr1 & Ho1 & Hd1 & Hc1) (Hi2 & Hr2 & Ho2 & Hd2 & Hc2).
  split_and!; [congruence|congruence|..].
  - intros i o'. rewrite Ho2, Ho1, !not_elem_of_cons.
    pose proof (not_elem_of_nil o'). tauto.
  - intros k. by rewrite Hd2, Hd1.
  - intros k c c2 Hk Hk2.
    destruct (proj2 (Hd1 k) (mk_is_Some _ _ Hk)) as [c1 Hk1].
    rewrite (Hc2 _ _ _ Hk1 Hk2), (Hc1 _ _ _ Hk Hk1), list_filter_filter.
    apply list_filter_iff. intros o'. rewrite !not_elem_of_cons.
    pose proof (not_elem_of_nil o'). tauto.
Qed.

(** A loop that removes live overlays one by one. *)
Lemma forEach_removed env (f : oref -> M unit) :
  (forall m i o, Inv env m -> _overlays m !! i = Some o ->
     f o m = (Ret tt, removed env o m)) ->
  forall l m, Inv env m -> NoDup l -> (forall o, o ∈ l -> live m o) ->
  exists m', forEach l f m = (Ret tt, m') /\ Inv env m' /\ without l m m'.
Proof.
  intros Hf. induction l as [|o l IH]; intros m HI Hnd Hlive.
  - exists m. split_and!; [done|done|apply without_nil].
  - apply NoDup_cons in Hnd as [Hno Hnd].
    destruct (Hlive o) as [i Hio]; [by left|].
    pose proof (without_removed _ _ _ _ HI Hio) as Hw1.
    destruct (IH (removed env o m)) as (m' & Hrun & HI' & Hw2).
    + by eapply removed_Inv.
    + done.
    + intros o' Hin'. destruct (Hlive o') as [i' Hio']; [by right|].
      exists i'. apply Hw1. split; [done|]. intros Heq%list_elem_of_singleton. congruence.
    + exists m'. split_and!; [|done|by eapply without_cons].
      cbn. erewrite bind_Ret; [exact Hrun|]. by eapply Hf.
Qed.

Lemma remove_overlay_live env m i o :
  Inv env m -> _overlays m !! i = Some o ->
  remove_overlay getBBox env o m = (Ret tt, removed env o m).
Proof.
  intros HI Hio.
  destruct (Inv_live _ _ _ _ HI Hio) as (ov & e & c & Hov & Hid & He & Hw & Hk & _).
  eapply remove_overlay_spec; [done|done|].
  rewrite He. cbn [fmap option_fmap option_map]. by rewrite (getProperty_Some _ _ _ Hk).
Qed.

(** The own values of the id dictionary are its overlays, each once. *)
Lemma own_values_live m o : o ∈ own_values m <-> live m o.
Proof.
  unfold own_values. rewrite merge_sort_Permutation, list_elem_of_fmap. split.
  - intros ([i o'] & -> & Hin). apply elem_of_map_to_list in Hin. by exists i.
  - intros [i Hio]. exists (i, o). split; [done|]. by apply elem_of_map_to_list.
Qed.

Lemma own_values_NoDup env m : Inv env m -> NoDup (own_values m).
Proof.
  intros HI. unfold own_values. rewrite merge_sort_Permutation.
  apply NoDup_fmap_2_strong; [|apply NoDup_map_to_list].
  intros [i1 o1] [i2 o2] H1%elem_of_map_to_list H2%elem_of_map_to_list Heq.
  cbn in Heq. subst o2.
  destruct (inv_overlays _ _ HI i1 o1 H1) as (ov1 & _ & _ & _ & Hov1 & Hid1 & _).
  destruct (inv_overlays _ _ HI i2 o1 H2) as (ov2 & _ & _ & _ & Hov2 & Hid2 & _).
  f_equal. congruence.
Qed.

(** [get] throws on a search that was not passed, and only then. *)
Lemma get_Ret env search m :
  search <> SearchUndefined -> exists r, get env search m = Ret r.
Proof. intros Hs. unfold get. destruct search; by eauto. Qed.

Lemma get_undefined env m : get env SearchUndefined m = Throw TypeError.
Proof. reflexivity. Qed.

(** The arrays [get] returns hold live overlays, each once. *)
Lemma get_array env search m l :
  Inv env m -> get env search m = Ret (GArray l) ->
  NoDup l /\ forall o, o ∈ l -> live m o.
Proof.
  intros HI. unfold get. destruct (searchObject search) as [q|]; [|done].
  assert (Hcont : forall k c, _overlayContainers m !! k = Some c ->
            NoDup (c_overlays c) /\ forall o, o ∈ c_overlays c -> live m o).
  { intros k c Hk. split.
    - by eapply StronglySorted_lt_NoDup, (inv_sorted _ _ HI).
    - intros o Hin. destruct (inv_containers _ _ HI k c o Hk Hin) as (ov & e & _ & Hid & _).
      by eexists. }
  assert (Hvals : NoDup (own_values m) /\ forall o, o ∈ own_values m -> live m o).
  { split; [by eapply own_values_NoDup|]. intros o. by rewrite own_values_live. }
  assert (Hfilter : forall (P : nat -> Prop) `{!forall o, Decision (P o)} l0,
            (NoDup l0 /\ forall o, o ∈ l0 -> live m o) ->
            NoDup (filter P l0) /\ forall o, o ∈ filter P l0 -> live m o).
  { intros P ? l0 [Hnd Hl]. split; [by apply NoDup_filter|].
    intros o [_ Hin]%list_elem_of_filter. by apply Hl. }
  assert (Hnil : NoDup (@nil nat) /\ forall o, o ∈ @nil nat -> live m o).
  { split; [constructor|]. intros o Hin. by apply elem_of_nil in Hin. }
  destruct (truthy_elem (s_element q)).
  - destruct (getProperty (_overlayContainers m) _) as [c| |] eqn:Hk.
    + apply getProperty_Own in Hk.
      destruct (truthy_opt (s_type q)); intros [= <-]; eauto.
    + by destruct (truthy_opt (s_type q)); intros [= <-].
    + by intros [= <-].
  - destruct (truthy_opt (s_type q)); [intros [= <-]; eauto|].
    destruct (truthy_opt (s_id q)); [|done]. by destruct (getProperty (_overlays m) _).
Qed.

(** The overlay [get] returns is live. *)
Lemma get_overlay env search m o :
  get env search m = Ret (GOverlay o) -> live m o.
Proof.
  unfold get. destruct (searchObject search) as [q|]; [|done].
  destruct (truthy_elem (s_element q)).
  { by destruct (getProperty (_overlayContainers m) _), (truthy_opt (s_type q)). }
  destruct (truthy_opt (s_type q)); [done|].
  destruct (truthy_opt (s_id q)); [|done].
  destruct (getProperty (_overlays m) _) eqn:Hs; [|done..].
  apply getProperty_Own in Hs. intros [= <-]. by eexists.
Qed.

Lemma remove_found env filter m r :
  get env filter m = Ret r -> r <> GInherited ->
  remove getBBox env filter m = forEach (found r) (remove_overlay getBBox env) m.
Proof.
  intros Hget Hr. unfold remove.
  erewrite bind_Ret; [|unfold attempt; by rewrite Hget]. by destruct r.
Qed.

(** [remove] throws where [get] throws. *)
Lemma remove_get_throws env filter m x :
  get env filter m = Throw x -> remove getBBox env filter m = (Throw x, m).
Proof. intros Hget. unfold remove, bind, attempt. by rewrite Hget. Qed.

(** [remove] throws on a property inherited from [Object.prototype]. *)
Lemma remove_get_inherited env filter m :
  get env filter m = Ret GInherited -> remove getBBox env filter m = (Throw TypeError, m).
Proof.
  intros Hget. unfold remove.
  erewrite bind_Ret; [|unfold attempt; by rewrite Hget].
  unfold remove_inherited. by rewrite (bind_Ret _ _ _ _ _ (_getOverlayContainer_raw _ _ _)).
Qed.

(** The overlays [get] has found are live, each once. *)
Lemma get_found env search m r :
  Inv env m -> get env search m = Ret r ->
  NoDup (found r) /\ forall o, o ∈ found r -> live m o.
Proof.
  intros HI Hget. destruct r as [o| | | |l]; cbn [found].
  - split; [apply NoDup_singleton|]. intros o' ->%list_elem_of_singleton.
    by eapply get_overlay.
  - split; [constructor|]. intros o Hin. by apply elem_of_nil in Hin.
  - split; [constructor|]. intros o Hin. by apply elem_of_nil in Hin.
  - split; [constructor|]. intros o Hin. by apply elem_of_nil in Hin.
  - by eapply get_array.
Qed.

(** [remove] keeps the invariant, whether it returns or throws. *)
Lemma remove_Inv env filter m : Inv env m -> Inv env (remove getBBox env filter m).2.
Proof.
  intros HI. destruct (get env filter m) as [r|x] eqn:Hget.
  2:{ by rewrite (remove_get_throws _ _ _ _ Hget). }
  destruct (GInherited_dec r) as [->|Hr].
  { by rewrite (remove_get_inherited _ _ _ Hget). }
  rewrite (remove_found _ _ _ _ Hget Hr).
  destruct (get_found _ _ _ _ HI Hget) as [Hnd Hlive].
  destruct (forEach_removed env (remove_overlay getBBox env)
              (fun m i o => remove_overlay_live env m i o) _ m HI Hnd Hlive)
    as (m' & -> & ? & _).
  done.
Qed.

Lemma get_id env i m :
  get env (SearchId i) m =
    Ret (if truthy i then
           match getProperty (_overlays m) i with
           | Own o => GOverlay o
           | Inherited => GInherited
           | Absent => GUndefined
           end
         else GNull).
Proof. reflexivity. Qed.

Lemma Inv_truthy_id env m i o : Inv env m -> _overlays m !! i = Some o -> truthy i = true.
Proof.
  intros HI Hio. destruct i; [|done]. by rewrite (inv_nonempty _ _ HI) in Hio.
Qed.

Lemma remove_id_absent env i m :
  _overlays m !! i = None -> inherited i = false ->
  remove getBBox env (SearchId i) m = (Ret tt, m).
Proof.
  intros Hi Hin.
  assert (Hget : get env (SearchId i) m = Ret (if truthy i then GUndefined else GNull)).
  { rewrite get_id. unfold getProperty. by rewrite Hi, Hin. }
  rewrite (remove_found _ _ _ _ Hget); by destruct (truthy i).
Qed.

Lemma remove_id_inherited env i m :
  _overlays m !! i = None -> inherited i = true ->
  remove getBBox env (SearchId i) m = (Throw TypeError, m).
Proof.
  intros Hi Hin. apply remove_get_inherited.
  rewrite get_id. unfold getProperty. rewrite Hi, Hin.
  destruct i; [by vm_compute in Hin|done].
Qed.

Lemma remove_id_live env i o m :
  Inv env m -> _overlays m !! i = Some o ->
  remove getBBox env (SearchId i) m = (Ret tt, removed env o m).
Proof.
  intros HI Hio.
  assert (Hget : get env (SearchId i) m = Ret (GOverlay o)).
  { by rewrite get_id, (getProperty_Some _ _ _ Hio), (Inv_truthy_id _ _ _ _ HI Hio). }
  rewrite (remove_found _ _ _ _ Hget) by done.
  cbn. erewrite bind_Ret; [done|]. by eapply remove_overlay_live.
Qed.

Lemma removed_gone env m i o :
  Inv env m -> _overlays m !! i = Some o ->
  _overlays (removed env o m) !! i = None /\
  forall k c', _overlayContainers (removed env o m) !! k = Some c' -> o ∉ c_overlays c'.
Proof.
  intros HI Hio. pose proof (without_removed _ _ _ _ HI Hio) as (_ & _ & Ho & Hd & Hc).
  split.
  - destruct (_overlays (removed env o m) !! i) as [o'|] eqn:Hi'; [|done].
    apply Ho in Hi' as [Hi' Hno]. exfalso. apply Hno, list_elem_of_singleton. congruence.
  - intros k c' Hk'. destruct (proj1 (Hd k) (mk_is_Some _ _ Hk')) as [c Hk].
    rewrite (Hc _ _ _ Hk Hk'). intros [Hno _]%list_elem_of_filter.
    by apply Hno, list_elem_of_singleton.
Qed.


Lemma filter_notin_self (l : list oref) : filter (fun o => o ∉ l) l = [].
Proof.
  assert (H : forall l0, l0 ⊆ l -> filter (fun o => o ∉ l) l0 = []).
  { induction l0 as [|x l0 IH]; [done|]. intros Hsub.
    rewrite filter_cons_False; [apply IH|].
    - intros y Hy. apply Hsub. by right.
    - intros Hn. apply Hn, Hsub. by left. }
  by apply H.
Qed.

Lemma on_element_remove_spec env m element :
  Inv env m ->
  exists m',
    on_element_remove getBBox env element m = (Ret tt, m') /\
    Inv env m' /\
    (forall i o, _overlays m !! i = Some o ->
       (ov_element <$> heap m !! o) = Some (Some element) ->
       _overlays m' !! i = None /\
       forall k c', _overlayContainers m' !! k = Some c' -> o ∉ c_overlays c') /\
    (forall c', _overlayContainers m' !! containerKey env (Some (EObj element)) = Some c' ->
       c_overlays c' = []).
Proof.
  intros HI. unfold on_element_remove.
  set (k := containerKey env (Some (EObj element))).
  set (l := from_option c_overlays [] (_overlayContainers m !! k)).
  assert (Hget : get env (SearchObj {| s_id := None; s_element := Some (EObj element);
                                       s_type := None |}) m =
                 Ret (match getProperty (_overlayContainers m) k with
                      | Inherited => GUndefined
                      | _ => GArray l
                      end)).
  { unfold get, l, getProperty.
    cbn [searchObject s_element s_type truthy_elem truthy_opt]. fold k.
    destruct (_overlayContainers m !! k); [done|]. by destruct (inherited k). }
  erewrite bind_Ret; [|unfold attempt; by rewrite Hget].
  destruct (Inherited_dec (getProperty (_overlayContainers m) k)) as [Hk|Hk].
  { rewrite Hk. apply getProperty_Inherited in Hk as [Hk _].
    exists m. split_and!; [done|done|..].
    - intros i o Hio Hel.
      destruct (Inv_live _ _ _ _ HI Hio) as (ov & e & c & Hov & _ & He & _ & Hc & _).
      rewrite Hov in Hel. cbn in Hel. assert (e = element) as -> by congruence.
      fold k in Hc. congruence.
    - intros c' Hc'. congruence. }
  assert (Hget' : get env (SearchObj {| s_id := None; s_element := Some (EObj element);
                                        s_type := None |}) m = Ret (GArray l)).
  { rewrite Hget. by destruct (getProperty (_overlayContainers m) k). }
  replace (match getProperty (_overlayContainers m) k with
           | Inherited => GUndefined
           | _ => GArray l
           end) with (GArray l) by (by destruct (getProperty (_overlayContainers m) k)).
  clear Hk. destruct (get_array _ _ _ _ HI Hget') as [Hnd Hlive].
  destruct (forEach_removed env
              (fun o => ov <- readOverlay o ;; remove getBBox env (SearchId (ov_id ov))) )
    with (l := l) (m := m) as (m' & Hrun & HI' & Hw); try done.
  { intros m0 i o HI0 Hio.
    destruct (Inv_live _ _ _ _ HI0 Hio) as (ov & _ & _ & Hov & Hid & _).
    rewrite (bind_Ret _ _ _ _ _ (readOverlay_Some _ _ _ Hov)), Hid.
    by apply remove_id_live. }
  exists m'. split_and!; [done|done|..].
  - intros i o Hio Hel.
    destruct (Inv_live _ _ _ _ HI Hio) as (ov & e & c & Hov & Hid & He & _ & Hk & Hin & _).
    rewrite Hov in Hel. cbn in Hel. assert (e = element) as -> by congruence.
    assert (Hl : o ∈ l) by (unfold l; fold k in Hk; by rewrite Hk).
    destruct Hw as (_ & _ & Ho & Hd & Hc). split.
    + destruct (_overlays m' !! i) as [o'|] eqn:Hi'; [|done].
      apply Ho in Hi' as [Hi' Hno]. exfalso. apply Hno. congruence.
    + intros k' c' Hk'. destruct (proj1 (Hd k') (mk_is_Some _ _ Hk')) as [c0 Hk0].
      rewrite (Hc _ _ _ Hk0 Hk'). by intros [Hno _]%list_elem_of_filter.
  - intros c' Hk'. destruct Hw as (_ & _ & _ & Hd & Hc).
    destruct (proj1 (Hd k) (mk_is_Some _ _ Hk')) as [c0 Hk0].
    rewrite (Hc _ _ _ Hk0 Hk'). unfold l. rewrite Hk0. cbn. apply filter_notin_self.
Qed.


(** ** Restyling *)

(** A loop whose step rewrites one object with [f]. *)
Lemma forEach_restyle (f : Overlay -> Overlay) (step : oref -> M unit) :
  (forall ov, attached ov -> attached (f ov)) ->
  (forall ov, f (f ov) = f ov) ->
  (forall o m ov, heap m !! o = Some ov -> attached ov ->
     step o m = (Ret tt, set_heap (insert o (f ov)) m)) ->
  forall l m,
    (forall o, o ∈ l -> exists ov, heap m !! o = Some ov /\ attached ov) ->
    exists h',
      forEach l step m = (Ret tt, set_heap (fun _ => h') m) /\
      forall o, h' !! o = if decide (o ∈ l) then f <$> heap m !! o else heap m !! o.
Proof.
  intros Hgood Hidem Hstep. induction l as [|o l IH]; intros m Hl.
  - exists (heap m). split; [by destruct m|]. intros o.
    by rewrite decide_False by apply not_elem_of_nil.
  - destruct (Hl o) as (ov & Hov & Hg); [by left|].
    destruct (IH (set_heap (insert o (f ov)) m)) as (h' & Hrun & Hh').
    { intros o' Hin. cbn [heap set_heap]. destruct (decide (o' = o)) as [->|Hne].
      - exists (f ov). split; [|by apply Hgood].
        apply list_lookup_insert_eq. by eapply lookup_lt_Some.
      - rewrite list_lookup_insert_ne by done. apply Hl. by right. }
    exists h'. split.
    + cbn. erewrite bind_Ret; [|by apply Hstep]. by rewrite Hrun.
    + intros o'. rewrite Hh'. cbn [heap set_heap]. destruct (decide (o' = o)) as [->|Hne].
      * rewrite list_lookup_insert_eq by (by eapply lookup_lt_Some).
        rewrite (decide_True _ _ (list_elem_of_here o l)), Hov. cbn.
        case_decide; by rewrite ?Hidem.
      * rewrite list_lookup_insert_ne by done.
        destruct (decide (o' ∈ l)) as [Hin|Hin].
        -- by rewrite decide_True by (by right).
        -- rewrite decide_False; [done|]. by intros [?|?]%elem_of_cons.
Qed.

Lemma attached_reposition env ov : attached ov -> attached (reposition env ov).
Proof. intros [[e He] [w Hw]]. unfold reposition. rewrite He, Hw. split; by eexists. Qed.

Lemma reposition_idem env ov : reposition env (reposition env ov) = reposition env ov.
Proof.
  unfold reposition. destruct (ov_element ov) as [e|] eqn:He; [|by rewrite He].
  destruct (ov_htmlContainer ov) as [w|] eqn:Hw; [|by rewrite He, Hw].
  cbn. by rewrite He.
Qed.

Lemma _updateOverlay_reposition env o m ov :
  heap m !! o = Some ov -> attached ov ->
  _updateOverlay getBBox env o m = (Ret tt, set_heap (insert o (reposition env ov)) m).
Proof.
  intros Hov [[e He] [w Hw]]. unfold reposition. rewrite He, Hw.
  by apply _updateOverlay_spec.
Qed.

Lemma attached_reconcile vb ov : attached ov -> attached (reconcile vb ov).
Proof.
  intros [[e He] [w Hw]]. unfold reconcile. rewrite Hw.
  destruct (ov_show ov); split; by eexists.
Qed.

Lemma reconcile_idem vb ov : reconcile vb (reconcile vb ov) = reconcile vb ov.
Proof.
  unfold reconcile. destruct (ov_show ov) as [sh|] eqn:Hs; [|by rewrite Hs].
  destruct (ov_htmlContainer ov) as [w|] eqn:Hw; [|by rewrite Hs, Hw].
  cbn. by rewrite Hs.
Qed.

Lemma Inv_attached env m i o :
  Inv env m -> _overlays m !! i = Some o ->
  exists ov, heap m !! o = Some ov /\ attached ov.
Proof.
  intros HI Hio.
  destruct (inv_overlays _ _ HI i o Hio) as (ov & e & w & c & Hov & _ & He & Hw & _).
  exists ov. split; [done|]. split; by eexists.
Qed.

Lemma Inv_attached_container env m k c o :
  Inv env m -> _overlayContainers m !! k = Some c -> o ∈ c_overlays c ->
  exists ov, heap m !! o = Some ov /\ attached ov.
Proof.
  intros HI Hk Hin.
  destruct (inv_containers _ _ HI k c o Hk Hin) as (ov & e & _ & Hid & _).
  by eapply Inv_attached.
Qed.

Lemma _updateOverlayVisibilty_spec env vb m :
  Inv env m ->
  exists h',
    _updateOverlayVisibilty vb m = (Ret tt, set_heap (fun _ => h') m) /\
    forall o, (live m o -> h' !! o = reconcile vb <$> heap m !! o) /\
              (~ live m o -> h' !! o = heap m !! o).
Proof.
  intros HI. unfold _updateOverlayVisibilty. erewrite bind_Ret; [|reflexivity].
  destruct (forEach_restyle (reconcile vb)
    (fun overlay =>
       ov <- readOverlay overlay ;;
       match ov_show ov with
       | Some sh =>
           match ov_htmlContainer ov with
           | Some w =>
               updateOverlayObj overlay (set_htmlContainer (Some
                 {| w_left := w_left w; w_top := w_top w;
                    w_hidden := zoom_outside sh vb |}))
           | None => throw TypeError
           end
       | None => ret tt
       end)
    (attached_reconcile vb) (reconcile_idem vb))
    with (l := own_values m) (m := m) as (h' & Hrun & Hh').
  - intros o m0 ov Hov [_ [w Hw]].
    rewrite (bind_Ret _ _ _ _ _ (readOverlay_Some _ _ _ Hov)).
    unfold reconcile. rewrite Hw. destruct (ov_show ov) as [sh|].
    + by apply updateOverlayObj_Some.
    + unfold ret, set_heap. rewrite list_insert_id by done. by destruct m0.
  - intros o [i Hio]%own_values_live. by eapply Inv_attached.
  - exists h'. split; [done|]. intros o. rewrite Hh'.
    pose proof (own_values_live m o) as Hiff.
    destruct (decide (o ∈ _)); split; tauto.
Qed.

Lemma on_element_changed_spec env m e :
  Inv env m ->
  match getProperty (_overlayContainers m) (containerKey env (Some (EObj e))) with
  | Absent => on_element_changed getBBox env e m = (Ret tt, m)
  | Inherited => on_element_changed getBBox env e m = (Throw TypeError, m)
  | Own c =>
      exists h',
        on_element_changed getBBox env e m =
          (Ret tt,
           set_overlayContainers
             (alter (_updateOverlayContainer getBBox env) (containerKey env (Some (EObj e))))
             (set_heap (fun _ => h') m)) /\
        forall o, h' !! o =
          if decide (o ∈ c_overlays c) then reposition env <$> heap m !! o else heap m !! o
  end.
Proof.
  intros HI. unfold on_element_changed.
  rewrite (bind_Ret _ _ _ _ _ (_getOverlayContainer_raw _ _ _)).
  destruct (getProperty (_overlayContainers m) _) as [c| |] eqn:Hk; [|done..].
  apply getProperty_Own in Hk.
  erewrite bind_Ret; [|reflexivity]. rewrite Hk. cbn [from_option].
  destruct (forEach_restyle (reposition env) (fun overlay => _updateOverlay getBBox env overlay)
              (attached_reposition env) (reposition_idem env)
              (_updateOverlay_reposition env) (c_overlays c) m) as (h' & Hrun & Hh').
  { intros o Hin. by eapply Inv_attached_container. }
  exists h'. split; [|done]. by erewrite bind_Ret.
Qed.

Lemma reposition_fields env ov :
  ov_id (reposition env ov) = ov_id ov /\
  ov_element (reposition env ov) = ov_element ov /\
  ov_position (reposition env ov) = ov_position ov /\
  (is_Some (ov_htmlContainer ov) -> is_Some (ov_htmlContainer (reposition env ov))).
Proof.
  unfold reposition. destruct (ov_element ov) eqn:He, (ov_htmlContainer ov) eqn:Hw;
    cbn; rewrite ?He, ?Hw; split_and!; eauto.
Qed.

Lemma reconcile_fields vb ov :
  ov_id (reconcile vb ov) = ov_id ov /\
  ov_element (reconcile vb ov) = ov_element ov /\
  ov_show (reconcile vb ov) = ov_show ov /\
  (is_Some (ov_htmlContainer ov) -> is_Some (ov_htmlContainer (reconcile vb ov))).
Proof.
  unfold reconcile. destruct (ov_show ov) eqn:Hs, (ov_htmlContainer ov) eqn:Hw;
    cbn; rewrite ?Hs, ?Hw; split_and!; eauto.
Qed.

Lemma live_values m o : live m o <-> o ∈ (map_to_list (_overlays m)).*2.
Proof.
  rewrite list_elem_of_fmap. split.
  - intros [i Hio]. exists (i, o). split; [done|]. by apply elem_of_map_to_list.
  - intros ([i o'] & -> & Hin). apply elem_of_map_to_list in Hin. by exists i.
Qed.

Lemma live_dec m o : live m o \/ ~ live m o.
Proof. rewrite live_values. destruct (decide (o ∈ (map_to_list (_overlays m)).*2)); eauto. Qed.

Lemma updateViewbox_spec env vb m :
  Inv env m ->
  exists h',
    updateViewbox vb m =
      (Ret tt,
       {| _ids := _ids m; _overlays := _overlays m;
          _overlayContainers := _overlayContainers m;
          _overlayRoot :=
            {| root_hidden := false; root_transform := Some (viewbox_matrix vb) |};
          heap := h' |}) /\
    forall o, (live m o -> h' !! o = reconcile vb <$> heap m !! o) /\
              (~ live m o -> h' !! o = heap m !! o).
Proof.
  intros HI. unfold updateViewbox.
  erewrite bind_Ret; [|reflexivity].
  set (m1 := set_overlayRoot _ m).
  assert (HI1 : Inv env m1).
  { apply (Inv_restyled env m m1); [done|done|done| |exact HI].
    intros o ov Hov. by exists ov. }
  destruct (_updateOverlayVisibilty_spec env vb m1 HI1) as (h' & Hrun & Hh').
  exists h'. split; [|exact Hh']. erewrite bind_Ret; [|exact Hrun]. reflexivity.
Qed.

Lemma updateViewbox_Inv env vb m : Inv env m -> Inv env (updateViewbox vb m).2.
Proof.
  intros HI. destruct (updateViewbox_spec env vb m HI) as (h' & -> & Hh').
  apply (Inv_restyled env m); [done|done|done| |exact HI].
  cbn [snd heap]. intros o ov Hov. destruct (Hh' o) as [Hl Hn].
  destruct (live_dec m o) as [Hlive|Hlive].
  - rewrite (Hl Hlive), Hov. eexists. split; [done|].
    destruct (reconcile_fields vb ov) as (? & ? & _ & ?). done.
  - rewrite (Hn Hlive), Hov. eauto.
Qed.

Lemma on_element_changed_Inv env e m :
  Inv env m -> Inv env (on_element_changed getBBox env e m).2.
Proof.
  intros HI. pose proof (on_element_changed_spec env m e HI) as Hspec.
  destruct (getProperty (_overlayContainers m) _) as [c| |] eqn:Hk; [|by rewrite Hspec..].
  destruct Hspec as (h' & -> & Hh').
  apply (Inv_restyled env m); [done|done| | |exact HI]; cbn [snd].
  - intros k. cbn [_overlayContainers set_overlayContainers set_heap].
    rewrite lookup_alter. case_decide as Hkk; [|done]. rewrite <- Hkk.
    destruct (_overlayContainers m !! _); [|done]. cbn.
    by rewrite c_overlays__updateOverlayContainer.
  - cbn. intros o ov Hov. rewrite Hh', Hov. case_decide; [|by eauto].
    eexists. split; [done|]. destruct (reposition_fields env ov) as (? & ? & _ & ?). done.
Qed.

Lemma exec_Inv env c m : Inv env m -> Inv env (exec getBBox env c m).2.
Proof.
  intros HI.
  assert (Hk : forall (c0 : M unit), Inv env (c0 m).2 ->
            Inv env ((c0 ;;; ret (@None string)) m).2).
  { intros c0. unfold bind. by destruct (c0 m) as [[[]|?] ?]. }
  destruct c as [element type overlay|filter| | |vb|e|e]; cbn [exec].
  - pose proof (add_Inv env element type overlay m HI) as HI'.
    unfold bind. by destruct (add _ _ _ _ _ m) as [[?|?] ?].
  - apply Hk. by apply remove_Inv.
  - apply Hk. apply (Inv_restyled env m); [done|done|done| |exact HI]. by eauto.
  - apply Hk. apply (Inv_restyled env m); [done|done|done| |exact HI]. by eauto.
  - apply Hk. by apply (updateViewbox_Inv env).
  - apply Hk. by destruct (on_element_remove_spec env m e HI) as (m' & -> & ? & _).
  - apply Hk. by apply on_element_changed_Inv.
Qed.

(** Every state of a run that starts with a new manager is well formed, as
    long as the host leaves the ids of the elements alone. *)
Lemma run_Inv env calls : forall m,
  Forall (fun call => same_ids env call.1) calls ->
  Inv env m -> Inv env (run getBBox calls m).2.
Proof.
  induction calls as [|[env' c] calls IH]; intros m Hs HI; [done|].
  apply Forall_cons in Hs as [Hs1 Hs]. cbn in Hs1. cbn.
  pose proof (exec_Inv env' c m (Inv_same_ids _ _ _ Hs1 HI)) as HI1.
  destruct (exec getBBox env' c m) as [r m1]. cbn in HI1.
  assert (HI1' : Inv env m1).
  { apply (Inv_same_ids env' env); [|done]. intros e. by rewrite Hs1. }
  specialize (IH m1 Hs HI1'). by destruct (run getBBox calls m1).
Qed.

Lemma reachable_Inv env m : reachable env m -> Inv env m.
Proof. intros (g & calls & Hs & ->). apply run_Inv; [done|apply Inv_new]. Qed.

(** ** Positions *)

Lemma or_zero_Some q : (or_zero (Some q) == q)%Q.
Proof.
  unfold or_zero. destruct (Qeq_bool q 0) eqn:Hq; [|reflexivity].
  apply Qeq_bool_iff in Hq. by symmetry.
Qed.

Lemma placed_anchored env e p w : anchored env e p (placed env e p w).
Proof.
  split.
  - intros r Hr. eexists. split; [reflexivity|].
    unfold effective_left. rewrite Hr, or_zero_Some. ring.
  - intros b Hb. eexists. split; [reflexivity|].
    unfold effective_top. rewrite Hb, or_zero_Some. ring.
Qed.


(** ** Visibility *)

Lemma Qgtb_lt a b : Qgtb a b = true <-> (b < a)%Q.
Proof.
  unfold Qgtb. rewrite negb_true_iff, <- not_true_iff_false, Qle_bool_iff.
  split; [apply Qnot_le_lt|apply Qlt_not_le].
Qed.

Lemma Qltb_lt a b : Qltb a b = true <-> (a < b)%Q.
Proof. apply Qgtb_lt. Qed.

Lemma zoom_outside_iff sh vb :
  zoom_outside sh vb = true <->
  (exists z, minZoom sh = Some z /\ (vb_scale vb < z)%Q) \/
  (exists z, maxZoom sh = Some z /\ (z < vb_scale vb)%Q).
Proof.
  unfold zoom_outside. rewrite orb_true_iff.
  destruct (minZoom sh) as [lo|], (maxZoom sh) as [hi|]; cbn;
    rewrite ?Qgtb_lt, ?Qltb_lt; split;
    try (intros [?|?]; by eauto); intros [(z & Hz & ?)|(z & Hz & ?)];
    try done; injection Hz as <-; auto.
Qed.


(** ** Searching *)

Lemma StronglySorted_filter {A} (R : relation A) (P : A -> Prop)
    `{!forall x, Decision (P x)} (l : list A) :
  StronglySorted R l -> StronglySorted R (filter P l).
Proof.
  induction 1 as [|x l Hs IH Hall]; [constructor|].
  rewrite filter_cons. case_decide; [|done].
  constructor; [done|]. rewrite Forall_forall in Hall |- *.
  intros y [_ Hy]%list_elem_of_filter. by apply Hall.
Qed.

Lemma get_element env m q E :
  s_element q = Some E -> truthy_elem (Some E) = true ->
  get env (SearchObj q) m =
    Ret match getProperty (_overlayContainers m) (containerKey env (Some E)) with
        | Own c =>
            if truthy_opt (s_type q)
            then GArray (filter (has_type (heap m) (str (s_type q))) (c_overlays c))
            else GArray (c_overlays c)
        | Inherited => if truthy_opt (s_type q) then GArray [] else GUndefined
        | Absent => GArray []
        end.
Proof. intros HE Ht. unfold get. cbn [searchObject]. by rewrite HE, Ht. Qed.


(** ** Viewbox changes in time *)

Lemma hide_hidden m :
  root_hidden (_overlayRoot m) = true -> (hide m).2 = m.
Proof.
  destruct m as [g ovs cs [hid tr] h]. cbn. by intros ->.
Qed.

Lemma root_hidden_hide m : root_hidden (_overlayRoot (hide m).2) = true.
Proof. done. Qed.

(** The update that runs on the world is [updateViewbox] on its manager,
    and the visibility pass is called once, whether it returns or throws. *)
Lemma run_updateViewbox_eq vb w :
  run_updateViewbox vb w =
    {| mgr := (updateViewbox vb (mgr w)).2; pending := pending w;
       passes := passes w ++ [vb] |}.
Proof.
  unfold run_updateViewbox, call_updateOverlayVisibilty, updateViewbox, bind.
  cbn [_updateRoot modify mgr pending passes].
  by destruct (_updateOverlayVisibilty vb _) as [[[]|x] m2].
Qed.

Lemma elapse_early t w due vb :
  pending w = Some (due, vb) -> (t < due)%N -> elapse t w = w.
Proof.
  intros Hp Hlt. unfold elapse. rewrite Hp.
  by rewrite (proj2 (N.leb_gt due t) Hlt).
Qed.

Lemma elapse_due t w due vb :
  pending w = Some (due, vb) -> (due <= t)%N ->
  elapse t w =
    {| mgr := (updateViewbox vb (mgr w)).2; pending := None;
       passes := passes w ++ [vb] |}.
Proof.
  intros Hp Hle. unfold elapse. rewrite Hp.
  by rewrite (proj2 (N.leb_le due t) Hle), run_updateViewbox_eq.
Qed.

Lemma elapse_idle t w : pending w = None -> elapse t w = w.
Proof. intros Hp. unfold elapse. by rewrite Hp. Qed.

(** A debounced handler run on a world whose pending call, if any, is not
    due yet. *)
Lemma viewbox_changed_at_deferred config t vb w :
  deferred config = true ->
  (forall due vb', pending w = Some (due, vb') -> (t < due)%N) ->
  viewbox_changed_at config t vb w =
    {| mgr := (hide (mgr w)).2; pending := Some ((t + wait)%N, vb);
       passes := passes w |}.
Proof.
  intros Hd Hp. unfold viewbox_changed_at, on_viewbox_changed. rewrite Hd.
  assert (elapse t w = w) as ->; [|done].
  destruct (pending w) as [[due vb']|] eqn:Hpw.
  - eapply elapse_early; [done|]. by eapply Hp.
  - by apply elapse_idle.
Qed.

Lemma fire_all_cons config ev events w :
  fire_all config (ev :: events) w =
    fire_all config events (viewbox_changed_at config ev.1 ev.2 w).
Proof. done. Qed.

Lemma fire_burst config events : forall t vb w,
  deferred config = true ->
  pending w = Some ((t + wait)%N, vb) ->
  root_hidden (_overlayRoot (mgr w)) = true ->
  burst_from t events ->
  fire_all config events w =
    {| mgr := mgr w;
       pending := Some (((default (t, vb) (last events)).1 + wait)%N,
                        (default (t, vb) (last events)).2);
       passes := passes w |}.
Proof.
  induction events as [|[t' vb'] events IH]; intros t vb w Hd Hp Hh Hb.
  - cbn. rewrite <- Hp. by destruct w.
  - destruct Hb as [Hgap Hb]. cbn [fst snd] in Hgap, Hb.
    rewrite fire_all_cons. cbn [fst snd].
    rewrite viewbox_changed_at_deferred; [|done|].
    2:{ intros due vb0. rewrite Hp. intros [= <- <-]. lia. }
    rewrite hide_hidden by done.
    erewrite IH; [|done|reflexivity|done|done].
    cbn [mgr passes]. rewrite last_cons. by destruct (last events).
Qed.

Lemma fire_burst_first config ev events w :
  deferred config = true -> pending w = None -> burst_from ev.1 events ->
  fire_all config (ev :: events) w =
    {| mgr := (hide (mgr w)).2;
       pending := Some (((default ev (last events)).1 + wait)%N,
                        (default ev (last events)).2);
       passes := passes w |}.
Proof.
  intros Hd Hp Hb. rewrite fire_all_cons.
  rewrite viewbox_changed_at_deferred; [|done|by rewrite Hp].
  erewrite fire_burst; [|done|reflexivity|done|done]. by destruct ev.
Qed.

(** ** The claims *)


(** C2. For an overlay with [position.right = r] the left offset of the
    wrapper is the width of the element minus [r], and with
    [position.bottom = b] its top offset is the height minus [b], the width
    and height being those of the bounding box for an element with
    waypoints: right after [add], and, in any reachable state, after
    [element.changed] is handled for the element, with the width and height
    the element has then. *)
Theorem right_bottom_anchoring :
  (forall env element type overlay m id m',
     add getBBox env element type overlay m = (Ret id, m') ->
     exists o ov e w,
       _overlays m' !! id = Some o /\ heap m' !! o = Some ov /\
       resolveElement env element = Ret (Some e) /\ ov_element ov = Some e /\
       ov_htmlContainer ov = Some w /\
       anchored env e (ov_position ov) w) /\
  (forall env m i o ov e,
     reachable env m ->
     _overlays m !! i = Some o -> heap m !! o = Some ov -> ov_element ov = Some e ->
     exists m' ov' w',
       on_element_changed getBBox env e m = (Ret tt, m') /\
       _overlays m' !! i = Some o /\ heap m' !! o = Some ov' /\
       ov_element ov' = Some e /\ ov_position ov' = ov_position ov /\
       ov_htmlContainer ov' = Some w' /\
       anchored env e (ov_position ov) w').
Proof.
  split.
  - intros env element type overlay m id m' Hadd.
    destruct (add_Ret _ _ _ _ _ _ _ Hadd)
      as (ty & cfg & e & p & h & Hargs & He & Hp & Hh & Ht & Hjq & Hown & Hadd').
    rewrite Hadd' in Hadd.
    injection Hadd as <- <-.
    eexists (length (heap m)), _, e, _. split_and!.
    + cbn. apply lookup_insert_eq.
    + cbn. apply list_lookup_insert_eq. rewrite length_app. cbn. lia.
    + done.
    + done.
    + done.
    + apply placed_anchored.
  - intros env m i o ov e HI%reachable_Inv Hio Hov He.
    destruct (Inv_live _ _ _ _ HI Hio) as (ov1 & e1 & c & Hov1 & _ & He1 & [w Hw] & Hk & Hin & _).
    assert (ov1 = ov) as -> by congruence. assert (e1 = e) as -> by congruence.
    pose proof (on_element_changed_spec env m e HI) as Hspec. rewrite (getProperty_Some _ _ _ Hk) in Hspec.
    destruct Hspec as (h' & Hrun & Hh').
    eexists _, _, _. split_and!.
    + exact Hrun.
    + done.
    + cbn. rewrite Hh', decide_True, Hov by done. reflexivity.
    + unfold reposition. by rewrite He, Hw.
    + unfold reposition. by rewrite He, Hw.
    + unfold reposition. rewrite He, Hw. reflexivity.
    + apply placed_anchored.
Qed.

(** C3. In a reachable state, handling a viewbox change of scale [s] leaves
    every overlay that has a show policy hidden if [s] is below [minZoom]
    or above [maxZoom] and shown otherwise; a policy with [minZoom = 1] and
    [maxZoom = 2] hides at scale 0.5 and at scale 3 and shows at scale
    1.5. *)
Theorem zoom_range_visibility :
  (forall env vb m,
     reachable env m ->
     exists m' : Manager,
       updateViewbox vb m = (Ret tt, m') /\
       forall i o ov sh,
         _overlays m !! i = Some o -> heap m !! o = Some ov -> ov_show ov = Some sh ->
         exists ov' w',
           _overlays m' !! i = Some o /\ heap m' !! o = Some ov' /\
           ov_show ov' = Some sh /\ ov_htmlContainer ov' = Some w' /\
           w_hidden w' = zoom_outside sh vb) /\
  (forall sh vb,
     zoom_outside sh vb = true <->
     (exists z, minZoom sh = Some z /\ (vb_scale vb < z)%Q) \/
     (exists z, maxZoom sh = Some z /\ (z < vb_scale vb)%Q)) /\
  (forall trig x y,
     let sh := {| trigger := trig; minZoom := Some 1%Q; maxZoom := Some 2%Q |} in
     zoom_outside sh {| vb_x := x; vb_y := y; vb_scale := (1 # 2)%Q |} = true /\
     zoom_outside sh {| vb_x := x; vb_y := y; vb_scale := 3%Q |} = true /\
     zoom_outside sh {| vb_x := x; vb_y := y; vb_scale := (3 # 2)%Q |} = false).
Proof.
  split_and!.
  - intros env vb m HI%reachable_Inv. destruct (updateViewbox_spec env vb m HI) as (h' & Hrun & Hh').
    eexists. split; [exact Hrun|]. intros i o ov sh Hio Hov Hsh.
    destruct (Inv_attached _ _ _ _ HI Hio) as (ov1 & Hov1 & _ & [w Hw]).
    assert (ov1 = ov) as -> by congruence.
    destruct (Hh' o) as [Hl _]. specialize (Hl (ex_intro _ i Hio)).
    assert (Hrec : reconcile vb ov =
              set_htmlContainer
                (Some {| w_left := w_left w; w_top := w_top w;
                         w_hidden := zoom_outside sh vb |}) ov).
    { unfold reconcile. by rewrite Hsh, Hw. }
    exists (reconcile vb ov). eexists. cbn [_overlays heap]. rewrite Hl, Hov, Hrec.
    split_and!; try reflexivity; try done. cbn. by rewrite Hrec.
  - apply zoom_outside_iff.
  - intros trig x y. by split_and!.
Qed.

(** C5. The ids returned by the calls to [add] of a run are pairwise
    distinct, whatever else is called in between and whatever state the run
    starts in; and right after [add] has returned an id, [get] of that id
    returns the overlay object [add] has made, a new object that carries
    the id, the type, the resolved element, and the html and position of
    the configuration. *)
Theorem add_id_unique_and_indexed :
  (forall calls m, NoDup (run getBBox calls m).1) /\
  (forall env element type overlay m id m',
     add getBBox env element type overlay m = (Ret id, m') ->
     exists ty cfg e p h,
       addArgs type overlay = (ty, Some cfg) /\
       resolveElement env element = Ret (Some e) /\
       cfg_position cfg = Some p /\ cfg_html cfg = Some h /\
       get env (SearchId id) m' = Ret (GOverlay (length (heap m))) /\
       heap m !! length (heap m) = None /\
       heap m' !! length (heap m) =
         Some (set_htmlContainer
                 (Some (placed env e p {| w_left := None; w_top := None; w_hidden := false |}))
                 (assignOverlay ty cfg p h id e))).
Proof.
  split.
  - intros calls m. destruct (run_ids calls m) as (_ & _ & ns & -> & Hs & _).
    apply NoDup_fmap_2.
    + intros n n'. apply id_of_counter_inj.
    + clear -Hs. induction Hs as [|n ns Hs IH Hall]; constructor; [|done].
      intros Hin. rewrite Forall_forall in Hall. specialize (Hall _ Hin). lia.
  - intros env element type overlay m id m' Hadd.
    destruct (add_Ret _ _ _ _ _ _ _ Hadd)
      as (ty & cfg & e & p & h & Hargs & He & Hp & Hh & Ht & Hjq & Hown & Hadd').
    rewrite Hadd' in Hadd.
    injection Hadd as <- <-.
    exists ty, cfg, e, p, h. repeat split; try done.
    + rewrite get_id. cbn [fst IdGenerator_next].
      rewrite truthy_app_r by apply truthy_pretty_N.
      erewrite getProperty_Some; [done|]. cbn. by rewrite lookup_insert_eq.
    + apply lookup_ge_None. lia.
    + cbn. rewrite list_lookup_insert_eq by (rewrite length_app; cbn; lia). done.
Qed.


(** C9. With [deferUpdate] left at its default the viewbox update is
    debounced.  A burst of [canvas.viewbox.changed] events, each less than
    300ms after the one before, calls no visibility pass while it lasts and
    leaves every overlay object as it was; after each event exactly one call
    is pending, with the viewbox of that event.  Once 300ms have passed
    since the last event, [_updateOverlayVisibilty] has been called once,
    with the viewbox of the last event: every overlay with a show policy is
    hidden or shown as that viewbox demands, the root has the transform of
    that viewbox and is shown, and nothing is pending any more. *)
Theorem debounce_single_pass config env ev events w :
  deferred config = true -> pending w = None -> reachable env (mgr w) ->
  burst_from ev.1 events ->
  let last_ev := default ev (last events) in
  let w' := fire_all config (ev :: events) w in
  deferred None = true /\
  deferred (Some {| deferUpdate := None |}) = true /\
  passes w' = passes w /\
  heap (mgr w') = heap (mgr w) /\
  pending w' = Some ((last_ev.1 + wait)%N, last_ev.2) /\
  (forall T, (T < last_ev.1 + wait)%N -> elapse T w' = w') /\
  (forall T, (last_ev.1 + wait <= T)%N ->
     passes (elapse T w') = passes w ++ [last_ev.2] /\
     pending (elapse T w') = None /\
     mgr (elapse T w') = (updateViewbox last_ev.2 (hide (mgr w)).2).2 /\
     (forall i o ov sh,
        _overlays (mgr w) !! i = Some o -> heap (mgr w) !! o = Some ov ->
        ov_show ov = Some sh ->
        (w_hidden <$> wrapper_of (mgr (elapse T w')) o) =
          Some (zoom_outside sh last_ev.2)) /\
     _overlayRoot (mgr (elapse T w')) =
       {| root_hidden := false; root_transform := Some (viewbox_matrix last_ev.2) |} /\
     forall T', elapse T' (elapse T w') = elapse T w').
Proof.
  intros Hd Hp HI%reachable_Inv Hb last_ev w'. subst w'.
  rewrite (fire_burst_first _ _ _ _ Hd Hp Hb). fold last_ev.
  split_and!; try done.
  - intros T HT. by eapply elapse_early.
  - intros T HT. erewrite elapse_due; [|reflexivity|done].
    cbn [mgr passes pending].
    assert (HI' : Inv env (hide (mgr w)).2).
    { apply (Inv_restyled env (mgr w)); [done|done|done| |exact HI]. by eauto. }
    destruct (updateViewbox_spec env last_ev.2 _ HI') as (h' & Hrun & Hh').
    rewrite Hrun. cbn [snd]. split_and!; try done.
    intros i o ov sh Hio Hov Hsh.
    destruct (Inv_attached _ _ _ _ HI Hio) as (ov1 & Hov1 & _ & [wr Hw]).
    assert (ov1 = ov) as -> by congruence.
    destruct (Hh' o) as [Hl _]. specialize (Hl (ex_intro _ i Hio)).
    unfold wrapper_of. cbn [heap]. rewrite Hl. cbn [hide modify snd set_overlayRoot heap].
    rewrite Hov. cbn. unfold reconcile. by rewrite Hsh, Hw.
Qed.

(** C10. The handler of [canvas.viewbox.changed] hides the overlay root
    first, whatever the configuration, and only the viewbox update shows it
    again.  With the update debounced the root stays hidden, and with it
    every overlay, from the first event of a burst until 300ms after its
    last event; the update that runs then shows the root. *)
Theorem viewbox_change_hides_root :
  (forall m, root_hidden (_overlayRoot (hide m).2) = true) /\
  (forall m o, root_hidden (_overlayRoot m) = true -> displayed m o = false) /\
  (forall config t vb w,
     mgr (on_viewbox_changed config t vb w) =
       if deferred config then (hide (mgr w)).2
       else (updateViewbox vb (hide (mgr w)).2).2) /\
  (forall config ev events w,
     deferred config = true -> pending w = None -> burst_from ev.1 events ->
     let last_ev := default ev (last events) in
     let w' := fire_all config (ev :: events) w in
     (forall T, (T < last_ev.1 + wait)%N ->
        passes (elapse T w') = passes w /\
        root_hidden (_overlayRoot (mgr (elapse T w'))) = true /\
        forall o, displayed (mgr (elapse T w')) o = false) /\
     (forall env T, reachable env (mgr w) -> (last_ev.1 + wait <= T)%N ->
        root_hidden (_overlayRoot (mgr (elapse T w'))) = false)).
Proof.
  split_and!.
  - done.
  - intros m o Hh. unfold displayed. by rewrite Hh.
  - intros config t vb w. unfold on_viewbox_changed.
    destruct (deferred config); [done|]. by rewrite run_updateViewbox_eq.
  - intros config ev events w Hd Hp Hb last_ev w'. subst w'.
    rewrite (fire_burst_first _ _ _ _ Hd Hp Hb). fold last_ev. split.
    + intros T HT. erewrite elapse_early; [|reflexivity|done]. cbn [mgr passes].
      by split_and!.
    + intros env T HI%reachable_Inv HT. erewrite elapse_due; [|reflexivity|done]. cbn [mgr].
      assert (HI' : Inv env (hide (mgr w)).2).
      { apply (Inv_restyled env (mgr w)); [done|done|done| |exact HI]. by eauto. }
      by destruct (updateViewbox_spec env last_ev.2 _ HI') as (h' & -> & _).
Qed.

(** ** Further properties of the operations *)

(** The loop of [forEach_removed] leaves the state [removed] builds up. *)
Lemma forEach_removed_run env (f : oref -> M unit) :
  (forall m i o, Inv env m -> _overlays m !! i = Some o ->
     f o m = (Ret tt, removed env o m)) ->
  forall l m, Inv env m -> NoDup l -> (forall o, o ∈ l -> live m o) ->
  forEach l f m = (Ret tt, foldl (fun m o => removed env o m) m l).
Proof.
  intros Hf. induction l as [|o l IH]; intros m HI Hnd Hlive; [done|].
  apply NoDup_cons in Hnd as [Hno Hnd].
  destruct (Hlive o) as [i Hio]; [by left|].
  pose proof (without_removed _ _ _ _ HI Hio) as Hw1.
  cbn. erewrite bind_Ret; [|by eapply Hf]. apply IH; [by eapply removed_Inv|done|].
  intros o' Hin'. destruct (Hlive o') as [i' Hio']; [by right|].
  exists i'. apply Hw1. split; [done|]. intros Heq%list_elem_of_singleton. congruence.
Qed.

Lemma remove_spec env filter m r :
  Inv env m -> get env filter m = Ret r -> r <> GInherited ->
  let l := found r in
  let m' := foldl (fun m o => removed env o m) m l in
  remove getBBox env filter m = (Ret tt, m') /\ Inv env m' /\ without l m m'.
Proof.
  intros HI Hget Hr l m'. destruct (get_found env filter m r HI Hget) as [Hnd Hlive].
  pose proof (forEach_removed_run env _
                (fun m i o => remove_overlay_live env m i o) l m HI Hnd Hlive) as Hrun.
  destruct (forEach_removed env (remove_overlay getBBox env)
              (fun m i o => remove_overlay_live env m i o) l m HI Hnd Hlive)
    as (m'' & Hrun' & HI' & Hw).
  rewrite Hrun in Hrun'. injection Hrun' as <-.
  split_and!; [|done|done]. by rewrite (remove_found _ _ _ _ Hget Hr).
Qed.

Lemma heap_removed_other env o o' m :
  o' <> o -> heap (removed env o m) !! o' = heap m !! o'.
Proof.
  intros Hne. unfold removed. destruct (heap m !! o) as [ov|]; [|done].
  cbn. by rewrite list_lookup_insert_ne.
Qed.

Lemma heap_foldl_removed env l : forall m o',
  o' ∉ l -> heap (foldl (fun m o => removed env o m) m l) !! o' = heap m !! o'.
Proof.
  induction l as [|o l IH]; intros m o' Hn; [done|].
  apply not_elem_of_cons in Hn as [Hne Hn]. cbn. rewrite IH by done.
  by apply heap_removed_other.
Qed.

Lemma on_element_remove_as_remove env m e :
  Inv env m ->
  on_element_remove getBBox env e m =
    remove getBBox env
      (SearchObj {| s_id := None; s_element := Some (EObj e); s_type := None |}) m.
Proof.
  intros HI.
  set (filter := SearchObj {| s_id := None; s_element := Some (EObj e); s_type := None |}).
  destruct (get_Ret env filter m) as [r Hget]; [done|].
  assert (Hshape : r <> GInherited /\
                   match r with GArray l => l | _ => [] end = found r).
  { unfold filter in Hget. rewrite (get_element _ _ _ (EObj e)) in Hget by done.
    injection Hget as <-. cbn [s_type truthy_opt].
    by destruct (getProperty (_overlayContainers m) _). }
  destruct Hshape as [Hr Hl].
  destruct (remove_spec env filter m r HI Hget Hr) as (-> & _ & _).
  destruct (get_found env filter m r HI Hget) as [Hnd Hlive].
  unfold on_element_remove. fold filter.
  erewrite bind_Ret; [|unfold attempt; by rewrite Hget].
  rewrite Hl. apply forEach_removed_run; [|done..].
  intros m0 i o HI0 Hio.
  destruct (Inv_live _ _ _ _ HI0 Hio) as (ov & _ & _ & Hov & Hid & _).
  rewrite (bind_Ret _ _ _ _ _ (readOverlay_Some _ _ _ Hov)), Hid.
  by apply remove_id_live.
Qed.

(** ** Containers *)

Lemma snd_bind_ret {A B} (c : M A) (b : B) m : ((c ;;; ret b) m).2 = (c m).2.
Proof. unfold bind. by destruct (c m) as [[?|?] ?]. Qed.

Lemma exec_state env c m :
  (exec getBBox env c m).2 =
    match c with
    | CallAdd element type overlay => (add getBBox env element type overlay m).2
    | CallRemove search => (remove getBBox env search m).2
    | CallShow => (show m).2
    | CallHide => (hide m).2
    | EvViewbox vb => (updateViewbox vb m).2
    | EvElementRemove e => (on_element_remove getBBox env e m).2
    | EvElementChanged e => (on_element_changed getBBox env e m).2
    end.
Proof.
  destruct c; cbn [exec]; try apply snd_bind_ret.
  unfold bind. by destruct (add _ _ _ _ _ m) as [[?|?] ?].
Qed.

Lemma alter_Some {A} (f : A -> A) (k : string) (x : A) (m : gmap string A) :
  m !! k = Some x -> alter f k m = <[k := f x]> m.
Proof.
  intros Hk. apply map_eq. intros k'. rewrite lookup_alter, lookup_insert.
  case_decide as Hkk; [|done]. subst k'. by rewrite Hk.
Qed.

Lemma c_element__updateOverlayContainer env c :
  c_element (_updateOverlayContainer getBBox env c) = c_element c.
Proof.
  unfold _updateOverlayContainer.
  destruct (c_element c) as [s|e]; [done|].
  by destruct (e_waypoints (elements env e)).
Qed.

Lemma _updateOverlayContainer_anchor env c e :
  c_element c = EObj e ->
  _updateOverlayContainer getBBox env c =
    {| c_html := anchor env e; c_element := EObj e; c_overlays := c_overlays c |}.
Proof.
  intros He. unfold _updateOverlayContainer, anchor. rewrite He.
  by destruct (e_waypoints (elements env e)).
Qed.

(** What [remove] leaves, whether it returns or throws. *)
Lemma remove_state env search m :
  Inv env m ->
  exists l,
    (remove getBBox env search m).2 = foldl (fun m o => removed env o m) m l /\
    without l m (remove getBBox env search m).2.
Proof.
  intros HI. destruct (get env search m) as [r|x] eqn:Hget.
  2:{ exists []. rewrite (remove_get_throws _ _ _ _ Hget). split; [done|apply without_nil]. }
  destruct (GInherited_dec r) as [->|Hr].
  { exists []. rewrite (remove_get_inherited _ _ _ Hget). split; [done|apply without_nil]. }
  destruct (remove_spec env search m r HI Hget Hr) as (-> & _ & Hw). by exists (found r).
Qed.

(** What [add] leaves: the dictionaries as they were, when it throws, or
    the new overlay added. *)
Lemma add_state env element type overlay m :
  (_overlays (add getBBox env element type overlay m).2 = _overlays m /\
   _overlayContainers (add getBBox env element type overlay m).2 = _overlayContainers m) \/
  (exists ty cfg e p h,
     getProperty (_overlayContainers m) (containerKey env (Some (EObj e))) <> Inherited /\
     (add getBBox env element type overlay m).2 =
       added env (length (heap m))
         (assignOverlay ty cfg p h (IdGenerator_next (_ids m)).1 e) e
         (set_heap (fun l => l ++ [assignOverlay ty cfg p h (IdGenerator_next (_ids m)).1 e])
            (set_ids (IdGenerator_next (_ids m)).2 m))).
Proof.
  destruct (add_cases env element type overlay m)
    as [[x ->]|(ty & cfg & e & p & h & Hargs & He & Hp & Hh & Ht)]; [by left|].
  destruct (add_checked env element type overlay m ty cfg e p h Hargs He Hp Hh Ht)
    as [(x & _ & ->)|[(_ & _ & ->)|(_ & Hown & ->)]]; [by left..|].
  right. by exists ty, cfg, e, p, h.
Qed.

(** What the handler of [element.changed] leaves. *)
Lemma on_element_changed_state env m e :
  Inv env m ->
  (on_element_changed getBBox env e m).2 = m \/
  exists c h',
    _overlayContainers m !! containerKey env (Some (EObj e)) = Some c /\
    (on_element_changed getBBox env e m).2 =
      set_overlayContainers
        (alter (_updateOverlayContainer getBBox env) (containerKey env (Some (EObj e))))
        (set_heap (fun _ => h') m).
Proof.
  intros HI. pose proof (on_element_changed_spec env m e HI) as Hspec.
  destruct (getProperty (_overlayContainers m) _) as [c| |] eqn:Hk;
    [|left; by rewrite Hspec..].
  apply getProperty_Own in Hk. destruct Hspec as (h' & -> & _). right. by exists c, h'.
Qed.

(** A container of the state a call leaves has the element it had before
    the call, or is the one [add] has made for its element. *)
Lemma exec_container_origin env c m k c1 :
  Inv env m ->
  _overlayContainers (exec getBBox env c m).2 !! k = Some c1 ->
  match _overlayContainers m !! k with
  | Some c0 => c_element c1 = c_element c0
  | None => exists e, c_element c1 = EObj e /\ containerKey env (Some (EObj e)) = k
  end.
Proof.
  intros HI. rewrite exec_state.
  assert (Hremoved : forall l m0 c',
            _overlayContainers (foldl (fun m o => removed env o m) m0 l) !! k = Some c' ->
            exists c0, _overlayContainers m0 !! k = Some c0 /\ c_element c' = c_element c0).
  { induction l as [|o l IH]; intros m0 c' Hk; [by exists c'|].
    cbn [foldl] in Hk. destruct (IH _ _ Hk) as (c0 & Hk0 & He). rewrite He.
    unfold removed in Hk0. destruct (heap m0 !! o) as [ov|]; [|by exists c0].
    cbn [_overlayContainers] in Hk0. rewrite lookup_alter in Hk0.
    case_decide as Hkk; [|by exists c0]. rewrite Hkk in Hk0.
    destruct (_overlayContainers m0 !! k) as [c00|]; [|done].
    injection Hk0 as <-. by exists c00. }
  assert (Hsame : forall m', _overlayContainers m' = _overlayContainers m ->
            _overlayContainers m' !! k = Some c1 ->
            match _overlayContainers m !! k with
            | Some c0 => c_element c1 = c_element c0
            | None => exists e, c_element c1 = EObj e /\ containerKey env (Some (EObj e)) = k
            end).
  { intros m' -> Hk. by rewrite Hk. }
  assert (Hrem : forall search,
            _overlayContainers (remove getBBox env search m).2 !! k = Some c1 ->
            match _overlayContainers m !! k with
            | Some c0 => c_element c1 = c_element c0
            | None => exists e, c_element c1 = EObj e /\ containerKey env (Some (EObj e)) = k
            end).
  { intros search. destruct (remove_state env search m HI) as (l & -> & _). intros Hk.
    destruct (Hremoved _ _ _ Hk) as (c0 & -> & He). done. }
  destruct c as [element type overlay|search| | |vb|e|e].
  - destruct (add_state env element type overlay m)
      as [[_ Hc]|(ty & cfg & e & p & h & Hown & ->)]; [by apply Hsame|].
    cbn [snd _overlayContainers added set_heap set_ids]. rewrite lookup_insert.
    case_decide as Hk; [|by apply Hsame]. intros [= <-]. cbn [c_element set_c_overlays].
    rewrite <- Hk.
    destruct (_overlayContainers m !! _) as [c0|] eqn:Hk0; cbn [default from_option id].
    + done.
    + exists e. unfold _createOverlayContainer.
      by rewrite c_element__updateOverlayContainer.
  - apply Hrem.
  - by apply Hsame.
  - by apply Hsame.
  - destruct (updateViewbox_spec env vb m HI) as (h' & -> & _). by apply Hsame.
  - rewrite (on_element_remove_as_remove env m e HI). apply Hrem.
  - destruct (on_element_changed_state env m e HI) as [->|(c & h' & Hke & ->)];
      [by apply Hsame|].
    cbn [snd _overlayContainers set_overlayContainers set_heap].
    rewrite lookup_alter. case_decide as Hk; [|by apply Hsame].
    rewrite <- Hk, Hke. cbn. intros [= <-].
    by rewrite c_element__updateOverlayContainer.
Qed.

(** A container a call finds is still there when the call is over. *)
Lemma exec_container_kept env c m k :
  Inv env m -> is_Some (_overlayContainers m !! k) ->
  is_Some (_overlayContainers (exec getBBox env c m).2 !! k).
Proof.
  intros HI Hk0. rewrite exec_state.
  assert (Hrem : forall search,
            is_Some (_overlayContainers (remove getBBox env search m).2 !! k)).
  { intros search. destruct (remove_state env search m HI) as (l & _ & _ & _ & _ & Hd & _).
    by apply Hd. }
  destruct c as [element type overlay|search| | |vb|e|e].
  - destruct (add_state env element type overlay m)
      as [[_ ->]|(ty & cfg & e & p & h & Hown & ->)]; [done|].
    cbn [snd _overlayContainers added set_heap set_ids].
    apply lookup_insert_is_Some'. by right.
  - apply Hrem.
  - done.
  - done.
  - by destruct (updateViewbox_spec env vb m HI) as (h' & -> & _).
  - rewrite (on_element_remove_as_remove env m e HI). apply Hrem.
  - destruct (on_element_changed_state env m e HI) as [->|(c & h' & Hke & ->)]; [done|].
    cbn [snd _overlayContainers set_overlayContainers set_heap].
    by apply lookup_alter_is_Some.
Qed.

(** No call makes an own key of a name of [Object.prototype]. *)
Lemma exec_Inv_own env c m : Inv env m -> Inv_own m -> Inv_own (exec getBBox env c m).2.
Proof.
  intros HI [Ho Hk]. rewrite exec_state.
  assert (Hrem : forall search, Inv_own (remove getBBox env search m).2).
  { intros search. destruct (remove_state env search m HI) as (l & _ & _ & _ & Hd & Hc & _).
    split.
    - intros i [o Hio]. apply Hd in Hio as [Hio _]. by apply Ho.
    - intros k Hk'. by apply Hk, Hc. }
  assert (Hsame : forall m', _overlays m' = _overlays m ->
            _overlayContainers m' = _overlayContainers m -> Inv_own m').
  { intros m' Ho' Hk'. split; by rewrite ?Ho', ?Hk'. }
  destruct c as [element type overlay|search| | |vb|e|e].
  - destruct (add_state env element type overlay m)
      as [[Ho' Hk']|(ty & cfg & e & p & h & Hown & ->)]; [by apply Hsame|].
    split; cbn [_overlays _overlayContainers added set_heap set_ids ov_id assignOverlay].
    + intros i [o Hio]. rewrite lookup_insert in Hio. case_decide as Hi.
      * rewrite <- Hi. apply (next_id_own (_ids m)).
      * by apply Ho.
    + intros k [c Hkc]. rewrite lookup_insert in Hkc. case_decide as Hkk; [|by apply Hk].
      rewrite <- Hkk. unfold getProperty in Hown.
      destruct (_overlayContainers m !! _) as [c0|] eqn:Hk0; [by apply Hk|].
      by destruct (inherited _).
  - apply Hrem.
  - by apply Hsame.
  - by apply Hsame.
  - destruct (updateViewbox_spec env vb m HI) as (h' & -> & _). by apply Hsame.
  - rewrite (on_element_remove_as_remove env m e HI). apply Hrem.
  - destruct (on_element_changed_state env m e HI) as [->|(c & h' & Hke & ->)]; [done|].
    split; [done|]. cbn [_overlayContainers set_overlayContainers set_heap].
    intros k Hk'. apply Hk. by apply lookup_alter_is_Some in Hk'.
Qed.

Lemma run_Inv_own env calls : forall m,
  Forall (fun call => same_ids env call.1) calls ->
  Inv env m -> Inv_own m -> Inv_own (run getBBox calls m).2.
Proof.
  induction calls as [|[env' c] calls IH]; intros m Hs HI HO; [done|].
  apply Forall_cons in Hs as [Hs1 Hs]. cbn in Hs1. cbn.
  assert (Hs1' : same_ids env' env) by (intros e; by rewrite Hs1).
  pose proof (exec_Inv env' c m (Inv_same_ids _ _ _ Hs1 HI)) as HI1.
  pose proof (exec_Inv_own env' c m (Inv_same_ids _ _ _ Hs1 HI) HO) as HO1.
  destruct (exec getBBox env' c m) as [r m1]. cbn in HI1, HO1.
  specialize (IH m1 Hs (Inv_same_ids _ _ _ Hs1' HI1) HO1).
  by destruct (run getBBox calls m1).
Qed.

Lemma reachable_Inv_own env m : reachable env m -> Inv_own m.
Proof.
  intros (g & calls & Hs & ->). apply (run_Inv_own env); [done|apply Inv_new|].
  split; intros k [x Hk]; cbn in Hk; by rewrite lookup_empty in Hk.
Qed.

Lemma Inv_elements_same_ids env env' m :
  same_ids env env' -> Inv_elements env m -> Inv_elements env' m.
Proof.
  intros Hs H k c Hk. destruct (H k c Hk) as (e & He & Hke).
  exists e. by rewrite (containerKey_same_ids env env').
Qed.

Lemma exec_Inv_elements env c m :
  Inv env m -> Inv_elements env m -> Inv_elements env (exec getBBox env c m).2.
Proof.
  intros HI HE k c1 Hk1. pose proof (exec_container_origin env c m k c1 HI Hk1) as Ho.
  destruct (_overlayContainers m !! k) as [c0|] eqn:Hk0; [|done].
  destruct (HE k c0 Hk0) as (e & He & Hke). exists e. by rewrite Ho.
Qed.

Lemma run_Inv_elements env calls : forall m,
  Forall (fun call => same_ids env call.1) calls ->
  Inv env m -> Inv_elements env m -> Inv_elements env (run getBBox calls m).2.
Proof.
  induction calls as [|[env' c] calls IH]; intros m Hs HI HE; [done|].
  apply Forall_cons in Hs as [Hs1 Hs]. cbn in Hs1. cbn.
  assert (Hs1' : same_ids env' env) by (intros e; by rewrite Hs1).
  pose proof (exec_Inv env' c m (Inv_same_ids _ _ _ Hs1 HI)) as HI1.
  pose proof (exec_Inv_elements env' c m (Inv_same_ids _ _ _ Hs1 HI)
                (Inv_elements_same_ids _ _ _ Hs1 HE)) as HE1.
  destruct (exec getBBox env' c m) as [r m1]. cbn in HI1, HE1.
  specialize (IH m1 Hs (Inv_same_ids _ _ _ Hs1' HI1) (Inv_elements_same_ids _ _ _ Hs1' HE1)).
  by destruct (run getBBox calls m1).
Qed.

Lemma reachable_Inv_elements env m : reachable env m -> Inv_elements env m.
Proof.
  intros (g & calls & Hs & ->). apply run_Inv_elements; [done|apply Inv_new|].
  intros k c Hk. cbn in Hk. by rewrite lookup_empty in Hk.
Qed.

Lemma run_container_kept env calls : forall m k,
  Forall (fun call => same_ids env call.1) calls ->
  Inv env m -> is_Some (_overlayContainers m !! k) ->
  is_Some (_overlayContainers (run getBBox calls m).2 !! k).
Proof.
  induction calls as [|[env' c] calls IH]; intros m k Hs HI Hk; [done|].
  apply Forall_cons in Hs as [Hs1 Hs]. cbn in Hs1. cbn.
  assert (Hs1' : same_ids env' env) by (intros e; by rewrite Hs1).
  pose proof (exec_Inv env' c m (Inv_same_ids _ _ _ Hs1 HI)) as HI1.
  pose proof (exec_container_kept env' c m k (Inv_same_ids _ _ _ Hs1 HI) Hk) as Hk1.
  destruct (exec getBBox env' c m) as [r m1]. cbn in HI1, Hk1.
  specialize (IH m1 k Hs (Inv_same_ids _ _ _ Hs1' HI1) Hk1).
  by destruct (run getBBox calls m1).
Qed.

Lemma run_container_element env calls : forall m k c c',
  Forall (fun call => same_ids env call.1) calls ->
  Inv env m -> _overlayContainers m !! k = Some c ->
  _overlayContainers (run getBBox calls m).2 !! k = Some c' ->
  c_element c' = c_element c.
Proof.
  induction calls as [|[env' call] calls IH]; intros m k c c' Hs HI Hk Hk'.
  - cbn in Hk'. congruence.
  - apply Forall_cons in Hs as [Hs1 Hs]. cbn in Hs1. cbn in Hk'.
    assert (Hs1' : same_ids env' env) by (intros e; by rewrite Hs1).
    pose proof (exec_Inv env' call m (Inv_same_ids _ _ _ Hs1 HI)) as HI1.
    destruct (exec_container_kept env' call m k (Inv_same_ids _ _ _ Hs1 HI)
                (mk_is_Some _ _ Hk)) as [c1 Hk1].
    pose proof (exec_container_origin env' call m k c1 (Inv_same_ids _ _ _ Hs1 HI) Hk1)
      as Ho. rewrite Hk in Ho.
    destruct (exec getBBox env' call m) as [r m1]. cbn in HI1, Hk1.
    rewrite <- Ho. apply (IH m1 k c1 c' Hs (Inv_same_ids _ _ _ Hs1' HI1) Hk1).
    by destruct (run getBBox calls m1).
Qed.

(** ** Properties of the operations *)


Lemma StronglySorted_le_lt (l : list nat) :
  StronglySorted le l -> NoDup l -> StronglySorted lt l.
Proof.
  induction 1 as [|x l Hs IH Hall]; intros Hnd; [constructor|].
  apply NoDup_cons in Hnd as [Hx Hnd]. constructor; [by apply IH|].
  rewrite Forall_forall in Hall |- *. intros y Hy. specialize (Hall y Hy).
  assert (x <> y) by (by intros ->). lia.
Qed.

Lemma own_values_sorted env m : Inv env m -> StronglySorted lt (own_values m).
Proof.
  intros HI. apply StronglySorted_le_lt; [|by eapply own_values_NoDup].
  unfold own_values. apply StronglySorted_merge_sort; apply _.
Qed.

(** X2. In a reachable state [get] with a type and no element returns the
    overlays of that type on all elements: each overlay of the id
    dictionary whose type it is, once, and nothing else, in the order the
    overlays were made in. *)
Theorem get_by_type env m q T :
  reachable env m ->
  truthy_elem (s_element q) = false -> s_type q = Some T -> truthy T = true ->
  exists l,
    get env (SearchObj q) m = Ret (GArray l) /\ NoDup l /\ StronglySorted lt l /\
    forall o, o ∈ l <->
      exists i ov, _overlays m !! i = Some o /\ heap m !! o = Some ov /\
                   ov_type ov = Some T.
Proof.
  intros HI%reachable_Inv He HT Ht.
  assert (Hget : get env (SearchObj q) m =
            Ret (GArray (filter (has_type (heap m) T) (own_values m)))).
  { unfold get. cbn [searchObject]. rewrite He, HT. cbn [truthy_opt]. by rewrite Ht. }
  eexists. split; [exact Hget|].
  destruct (get_array _ _ _ _ HI Hget) as [Hnd _]. split; [done|].
  split; [by eapply StronglySorted_filter, own_values_sorted|].
  intros o. rewrite list_elem_of_filter, own_values_live. unfold has_type. split.
  - intros [Hty [i Hio]].
    destruct (Inv_attached _ _ _ _ HI Hio) as (ov & Hov & _).
    exists i, ov. rewrite Hov in Hty. split_and!; [done|done|by injection Hty].
  - intros (i & ov & Hio & Hov & Hty). split; [by rewrite Hov, <- Hty|by exists i].
Qed.

Lemma filter_none {A} (P : A -> Prop) `{!forall x, Decision (P x)} (l : list A) :
  (forall x, x ∈ l -> ~ P x) -> filter P l = [].
Proof.
  induction l as [|x l IH]; [done|]. intros Hall.
  rewrite filter_cons_False by (apply Hall; by left).
  apply IH. intros y Hy. apply Hall. by right.
Qed.

(** X3. In a reachable state [remove] removes what [get] finds for the
    filter and nothing else.  Where [get] throws, on a filter that was not
    passed, [remove] throws the same and changes nothing; where [get]
    returns a property inherited from [Object.prototype], [remove] throws a
    TypeError and changes nothing.  Otherwise [remove] returns: the overlays
    [get] has found are gone from the id dictionary and from the containers,
    every other overlay keeps its entry, its place in its container and its
    object, no container is dropped, and the id generator and the root are
    as before; [get] with the same filter then finds nothing. *)
Theorem remove_removes_what_get_finds env m search :
  reachable env m ->
  (forall x, get env search m = Throw x ->
     remove getBBox env search m = (Throw x, m)) /\
  (get env search m = Ret GInherited ->
     remove getBBox env search m = (Throw TypeError, m)) /\
  (forall r, get env search m = Ret r -> r <> GInherited ->
     exists m' : Manager,
       remove getBBox env search m = (Ret tt, m') /\
       _ids m' = _ids m /\ _overlayRoot m' = _overlayRoot m /\
       (forall i o, _overlays m' !! i = Some o <->
          _overlays m !! i = Some o /\ o ∉ found r) /\
       (forall k, is_Some (_overlayContainers m' !! k) <->
                  is_Some (_overlayContainers m !! k)) /\
       (forall k c c',
          _overlayContainers m !! k = Some c -> _overlayContainers m' !! k = Some c' ->
          c_overlays c' = filter (fun o => o ∉ found r) (c_overlays c)) /\
       (forall o, o ∉ found r -> heap m' !! o = heap m !! o) /\
       exists r', get env search m' = Ret r' /\ r' <> GInherited /\ found r' = []).
Proof.
  intros HR. pose proof (reachable_Inv _ _ HR) as HI.
  destruct (reachable_Inv_own _ _ HR) as [Hown _].
  split_and!; [intros x; apply remove_get_throws|apply remove_get_inherited|].
  intros r Hget Hr.
  destruct (remove_spec env search m r HI Hget Hr) as (Hrun & HI' & Hw).
  pose proof (heap_foldl_removed env (found r) m) as Hheap.
  set (m' := foldl _ m (found r)) in *.
  destruct Hw as (Hi & Hroot & Ho & Hd & Hc).
  exists m'. split_and!; try done.
  assert (Hty : forall t o, o ∉ found r -> has_type (heap m') t o <-> has_type (heap m) t o).
  { intros t o Hn. unfold has_type. by rewrite Hheap. }
  assert (Hnone : forall k, _overlayContainers m !! k = None ->
                            _overlayContainers m' !! k = None).
  { intros k Hk. destruct (_overlayContainers m' !! k) as [c'|] eqn:Hk'; [|done].
    destruct (proj1 (Hd k) (mk_is_Some _ _ Hk')) as [c Hc0]. congruence. }
  unfold get in *. destruct (searchObject search) as [q|]; [|done].
  injection Hget as <-. eexists. split; [reflexivity|].
  destruct (truthy_elem (s_element q)).
  - unfold getProperty in *.
    destruct (_overlayContainers m !! _) as [c|] eqn:Hk.
    + destruct (proj2 (Hd _) (mk_is_Some _ _ Hk)) as [c' Hk']. rewrite Hk'.
      specialize (Hc _ _ _ Hk Hk').
      destruct (truthy_opt (s_type q)); cbn [found] in *; rewrite Hc; (split; [done|]).
      * apply filter_none. intros o [Hn Hin]%list_elem_of_filter Hty'.
        apply Hn, list_elem_of_filter. split; [by apply Hty|done].
      * apply filter_notin_self.
    + rewrite (Hnone _ Hk). by destruct (inherited _), (truthy_opt (s_type q)).
  - destruct (truthy_opt (s_type q)); cbn [found] in *.
    + split; [done|]. apply filter_none. intros o Hin Hty'.
      apply own_values_live in Hin as [i Hio]. apply Ho in Hio as [Hio Hn].
      apply Hn, list_elem_of_filter. split; [by apply Hty|].
      apply own_values_live. by exists i.
    + destruct (truthy_opt (s_id q)); [|done]. unfold getProperty in *.
      destruct (_overlays m !! str (s_id q)) as [o|] eqn:Hio.
      * assert (Hio' : _overlays m' !! str (s_id q) = None).
        { destruct (_overlays m' !! _) as [o'|] eqn:Hio'; [|done].
          apply Ho in Hio' as [Hio1 Hn]. rewrite Hio in Hio1. injection Hio1 as <-.
          exfalso. apply Hn. cbn. by left. }
        rewrite Hio', (Hown _ (mk_is_Some _ _ Hio)). done.
      * assert (Hio' : _overlays m' !! str (s_id q) = None).
        { destruct (_overlays m' !! _) as [o'|] eqn:Hio'; [|done].
          apply Ho in Hio' as [Hio1 _]. congruence. }
        rewrite Hio'. by destruct (inherited _).
Qed.


Lemma splice_out_snoc o l : o ∉ l -> splice_out o (l ++ [o]) = l.
Proof.
  induction l as [|x l IH]; intros Hn.
  - cbn. by rewrite splice_out_cons, decide_True.
  - apply not_elem_of_cons in Hn as [Hne Hn]. cbn.
    rewrite splice_out_cons, decide_False by congruence. by rewrite IH.
Qed.

(** X5. In a reachable state [add] followed by [remove] of the id it has
    returned puts the id dictionary and the containers back: the
    dictionary is as before [add], and so are the containers, but for a
    container that [add] had to create, which stays, empty.  The root and
    the older overlay objects are untouched; the id is used up. *)
Theorem add_remove_round_trip env element type overlay m id m1 :
  reachable env m ->
  add getBBox env element type overlay m = (Ret id, m1) ->
  exists m2 e,
    resolveElement env element = Ret (Some e) /\
    remove getBBox env (SearchId id) m1 = (Ret tt, m2) /\
    _overlays m2 = _overlays m /\
    _overlayContainers m2 =
      <[containerKey env (Some (EObj e)) :=
          default (_createOverlayContainer getBBox env (EObj e))
                  (_overlayContainers m !! containerKey env (Some (EObj e)))]>
        (_overlayContainers m) /\
    (is_Some (_overlayContainers m !! containerKey env (Some (EObj e))) ->
     _overlayContainers m2 = _overlayContainers m) /\
    _overlayRoot m2 = _overlayRoot m /\
    (forall o, o < length (heap m) -> heap m2 !! o = heap m !! o) /\
    counter (_ids m2) = (counter (_ids m) + 1)%N.
Proof.
  intros HI%reachable_Inv Hadd.
  pose proof (add_Inv env element type overlay m HI) as HI1. rewrite Hadd in HI1.
  cbn [snd] in HI1.
  destruct (add_Ret _ _ _ _ _ _ _ Hadd)
    as (ty & cfg & e & p & h & Hargs & He & Hp & Hh & Ht & Hjq & Hown & Hadd').
  rewrite Hadd' in Hadd.
  injection Hadd as <- <-.
  set (id := (IdGenerator_next (_ids m)).1) in *.
  set (o := length (heap m)) in *.
  set (k := containerKey env (Some (EObj e))) in *.
  set (m1 := added _ _ _ _ _) in *.
  assert (Hio : _overlays m1 !! id = Some o) by apply lookup_insert_eq.
  destruct (Inv_live _ _ _ _ HI1 Hio) as (ov1 & e1 & c1 & Hov1 & _ & He1 & _ & Hk1 & _ & Heq).
  assert (Hov1' : heap m1 !! o = Some (set_htmlContainer
            (Some (placed env e p {| w_left := None; w_top := None; w_hidden := false |}))
            (assignOverlay ty cfg p h id e))).
  { cbn. apply list_lookup_insert_eq. rewrite length_app. cbn. lia. }
  rewrite Hov1' in Hov1. injection Hov1 as <-. cbn in He1. injection He1 as <-.
  fold k in Hk1, Heq.
  set (c0 := default (_createOverlayContainer getBBox env (EObj e))
                     (_overlayContainers m !! k)).
  assert (Hc1 : c1 = set_c_overlays (fun l => l ++ [o]) c0).
  { cbn in Hk1. rewrite lookup_insert_eq in Hk1. by injection Hk1. }
  assert (Hnotin : o ∉ c_overlays c0).
  { subst c0. destruct (_overlayContainers m !! k) as [c|] eqn:Hk; cbn.
    - intros Hin. pose proof (Inv_lt _ _ _ _ _ HI Hk Hin). lia.
    - rewrite c_overlays__createOverlayContainer. apply not_elem_of_nil. }
  assert (Hcs : _overlayContainers (removed env o m1) = <[k := c0]> (_overlayContainers m)).
  { rewrite Heq. cbn. rewrite insert_insert_eq. f_equal. rewrite Hc1.
    unfold set_c_overlays. cbn. rewrite splice_out_snoc by done. by destruct c0. }
  exists (removed env o m1), e. split_and!.
  - done.
  - by apply remove_id_live.
  - rewrite Heq. cbn. apply delete_insert_id. apply (inv_fresh _ _ HI). lia.
  - exact Hcs.
  - intros [c Hk]. rewrite Hcs. subst c0. fold k in Hk. rewrite Hk. cbn. by apply insert_id.
  - by rewrite Heq.
  - intros o' Hlt. rewrite heap_removed_other by lia. cbn.
    rewrite list_lookup_insert_ne by lia. by apply lookup_app_l.
  - by rewrite Heq.
Qed.

(** X6. Containers are made when the first overlay is added for an element
    and never dropped: whatever is called on a reachable state, a container
    that exists still exists afterwards, for the same element object, be
    all its overlays removed; and every container belongs to an element
    object that is filed under the container's key. *)
Theorem containers_are_kept env m :
  reachable env m ->
  (forall k c, _overlayContainers m !! k = Some c ->
     exists e, c_element c = EObj e /\ containerKey env (Some (EObj e)) = k) /\
  (forall calls k c,
     Forall (fun call => same_ids env call.1) calls ->
     _overlayContainers m !! k = Some c ->
     exists c', _overlayContainers (run getBBox calls m).2 !! k = Some c' /\
                c_element c' = c_element c).
Proof.
  intros HR. pose proof (reachable_Inv _ _ HR) as HI.
  split; [by apply reachable_Inv_elements|].
  intros calls k c Hs Hk.
  destruct (run_container_kept env calls m k Hs HI (mk_is_Some _ _ Hk)) as [c' Hk'].
  exists c'. split; [done|]. by eapply run_container_element.
Qed.

(** X7. In a reachable state the handler of [element.changed] does nothing
    for an element that has no container, unless the id of the element
    names a property of [Object.prototype]: then the handler throws a
    TypeError, and changes nothing either.  For an element with a container
    it returns after it has repositioned the overlays of that container and
    no other, and has anchored the container at the position of the
    container's element object (of its bounding box for an element with
    waypoints); the id dictionary, the id generator, the root, the other
    containers and the list of the container are as before. *)
Theorem element_changed_effect env m e :
  reachable env m ->
  let k := containerKey env (Some (EObj e)) in
  (_overlayContainers m !! k = None -> inherited k = false ->
   on_element_changed getBBox env e m = (Ret tt, m)) /\
  (_overlayContainers m !! k = None -> inherited k = true ->
   on_element_changed getBBox env e m = (Throw TypeError, m)) /\
  (forall c, _overlayContainers m !! k = Some c ->
     exists m' e',
       on_element_changed getBBox env e m = (Ret tt, m') /\
       _ids m' = _ids m /\ _overlays m' = _overlays m /\
       _overlayRoot m' = _overlayRoot m /\
       c_element c = EObj e' /\ containerKey env (Some (EObj e')) = k /\
       _overlayContainers m' =
         <[k := {| c_html := anchor env e'; c_element := EObj e';
                   c_overlays := c_overlays c |}]> (_overlayContainers m) /\
       (forall o, o ∈ c_overlays c -> heap m' !! o = reposition env <$> heap m !! o) /\
       (forall o, o ∉ c_overlays c -> heap m' !! o = heap m !! o)).
Proof.
  intros HR k. pose proof (reachable_Inv _ _ HR) as HI.
  pose proof (on_element_changed_spec env m e HI) as Hspec. fold k in Hspec.
  unfold getProperty in Hspec. split_and!.
  - intros Hk Hin. by rewrite Hk, Hin in Hspec.
  - intros Hk Hin. by rewrite Hk, Hin in Hspec.
  - intros c Hk. rewrite Hk in Hspec. destruct Hspec as (h' & Hrun & Hh').
    destruct (reachable_Inv_elements _ _ HR k c Hk) as (e' & He' & Hke').
    eexists _, e'. split_and!; [exact Hrun|done|done|done|done|done|..].
    + cbn. rewrite (alter_Some _ _ _ _ Hk). f_equal.
      by apply _updateOverlayContainer_anchor.
    + intros o Hin. cbn. by rewrite Hh', decide_True.
    + intros o Hn. cbn. by rewrite Hh', decide_False.
Qed.

(** X8. An overlay whose position gives no [right] is placed at
    [position.left], and one that gives no [bottom] at [position.top],
    whatever the size of the element; an offset that is not given is 0.
    This holds right after [add] and, in a reachable state, after the
    handler of [element.changed] has run for the overlay's element. *)
Theorem left_top_placement :
  (forall env element type overlay m id m',
     add getBBox env element type overlay m = (Ret id, m') ->
     exists o ov w,
       _overlays m' !! id = Some o /\ heap m' !! o = Some ov /\
       ov_htmlContainer ov = Some w /\
       (right (ov_position ov) = None -> w_left w = Some (or_zero (left (ov_position ov)))) /\
       (bottom (ov_position ov) = None -> w_top w = Some (or_zero (top (ov_position ov))))) /\
  (forall env m i o ov e,
     reachable env m ->
     _overlays m !! i = Some o -> heap m !! o = Some ov -> ov_element ov = Some e ->
     exists m' ov' w',
       on_element_changed getBBox env e m = (Ret tt, m') /\
       heap m' !! o = Some ov' /\ ov_htmlContainer ov' = Some w' /\
       (right (ov_position ov) = None ->
        w_left w' = Some (or_zero (left (ov_position ov)))) /\
       (bottom (ov_position ov) = None ->
        w_top w' = Some (or_zero (top (ov_position ov))))) /\
  (or_zero None = 0%Q /\ forall q, (or_zero (Some q) == q)%Q).
Proof.
  assert (Hplaced : forall env e p w,
            (right p = None -> w_left (placed env e p w) = Some (or_zero (left p))) /\
            (bottom p = None -> w_top (placed env e p w) = Some (or_zero (top p)))).
  { intros env e p w. unfold placed, effective_left, effective_top. cbn.
    split; by intros ->. }
  split_and!.
  - intros env element type overlay m id m' Hadd.
    destruct (add_Ret _ _ _ _ _ _ _ Hadd)
      as (ty & cfg & e & p & h & Hargs & He & Hp & Hh & Ht & Hjq & Hown & Hadd').
    rewrite Hadd' in Hadd.
    injection Hadd as <- <-.
    eexists (length (heap m)), _, _. split_and!.
    + cbn. apply lookup_insert_eq.
    + cbn. apply list_lookup_insert_eq. rewrite length_app. cbn. lia.
    + reflexivity.
    + apply Hplaced.
    + apply Hplaced.
  - intros env m i o ov e HI%reachable_Inv Hio Hov He.
    destruct (Inv_live _ _ _ _ HI Hio) as (ov1 & e1 & c & Hov1 & _ & He1 & [w Hw] & Hk & Hin & _).
    assert (ov1 = ov) as -> by congruence. assert (e1 = e) as -> by congruence.
    pose proof (on_element_changed_spec env m e HI) as Hspec. rewrite (getProperty_Some _ _ _ Hk) in Hspec.
    destruct Hspec as (h' & Hrun & Hh').
    assert (Hrep : reposition env ov =
              set_htmlContainer (Some (placed env e (ov_position ov) w)) ov).
    { unfold reposition. by rewrite He, Hw. }
    eexists _, (reposition env ov), _. split_and!.
    + exact Hrun.
    + cbn. by rewrite Hh', decide_True, Hov.
    + by rewrite Hrep.
    + apply Hplaced.
    + apply Hplaced.
  - done.
  - apply or_zero_Some.
Qed.

(** X9. In a reachable state the viewbox update shows the root and gives it
    the transform that takes a point of the diagram to [s] times its offset
    from the origin of the viewbox, [s] being the scale of the viewbox, or
    1 for a scale of 0. *)
Theorem root_transform_maps env vb m :
  reachable env m ->
  exists m' mx,
    updateViewbox vb m = (Ret tt, m') /\
    root_hidden (_overlayRoot m') = false /\
    root_transform (_overlayRoot m') = Some mx /\
    let s := if Qeq_bool (vb_scale vb) 0 then 1%Q else vb_scale vb in
    forall px py,
      ((apply_matrix mx (px, py)).1 == s * (px - vb_x vb))%Q /\
      ((apply_matrix mx (px, py)).2 == s * (py - vb_y vb))%Q.
Proof.
  intros HI%reachable_Inv.
  destruct (updateViewbox_spec env vb m HI) as (h' & Hrun & _).
  eexists _, _. split_and!; [exact Hrun|done|done|].
  intros s px py. unfold apply_matrix, viewbox_matrix. cbn. fold s. split; ring.
Qed.

(** ** Passes *)





Lemma reconcile_keeps vb ov :
  ov_position (reconcile vb ov) = ov_position ov /\
  ov_element (reconcile vb ov) = ov_element ov /\
  (w_left <$> ov_htmlContainer (reconcile vb ov)) = (w_left <$> ov_htmlContainer ov) /\
  (w_top <$> ov_htmlContainer (reconcile vb ov)) = (w_top <$> ov_htmlContainer ov) /\
  (ov_show ov = None -> reconcile vb ov = ov).
Proof.
  unfold reconcile. destruct (ov_show ov) eqn:Hs, (ov_htmlContainer ov) eqn:Hw;
    cbn; rewrite ?Hw; by split_and!.
Qed.

Lemma reposition_keeps env ov :
  ov_show (reposition env ov) = ov_show ov /\
  (w_hidden <$> ov_htmlContainer (reposition env ov)) = (w_hidden <$> ov_htmlContainer ov).
Proof.
  unfold reposition. destruct (ov_element ov) eqn:He, (ov_htmlContainer ov) eqn:Hw;
    cbn; rewrite ?Hw; by split_and!.
Qed.

(** X11. In a reachable state the two passes do not interfere.  The viewbox
    update keeps the position, the element and the left and top offsets of
    the wrapper of every overlay object, and leaves an object without a show
    policy as it is; the handler of [element.changed] keeps the show policy
    of every overlay object and whether its wrapper is hidden, in the state
    it leaves when it returns and when it throws. *)
Theorem passes_are_independent env m :
  reachable env m ->
  (forall vb, exists m',
     updateViewbox vb m = (Ret tt, m') /\
     forall o ov, heap m !! o = Some ov ->
       exists ov', heap m' !! o = Some ov' /\
         ov_position ov' = ov_position ov /\ ov_element ov' = ov_element ov /\
         (w_left <$> ov_htmlContainer ov') = (w_left <$> ov_htmlContainer ov) /\
         (w_top <$> ov_htmlContainer ov') = (w_top <$> ov_htmlContainer ov) /\
         (ov_show ov = None -> ov' = ov)) /\
  (forall e o ov,
     heap m !! o = Some ov ->
     exists ov',
       heap (on_element_changed getBBox env e m).2 !! o = Some ov' /\
       ov_show ov' = ov_show ov /\
       (w_hidden <$> ov_htmlContainer ov') = (w_hidden <$> ov_htmlContainer ov)).
Proof.
  intros HI%reachable_Inv. split.
  - intros vb. destruct (updateViewbox_spec env vb m HI) as (h' & Hrun & Hh').
    eexists. split; [exact Hrun|]. intros o ov Hov. cbn [heap].
    destruct (Hh' o) as [Hl Hn]. destruct (live_dec m o) as [Hlive|Hlive].
    + exists (reconcile vb ov). rewrite (Hl Hlive), Hov. split; [done|].
      apply reconcile_keeps.
    + exists ov. by rewrite (Hn Hlive), Hov.
  - intros e o ov Hov. pose proof (on_element_changed_spec env m e HI) as Hspec.
    destruct (getProperty (_overlayContainers m) _) as [c| |] eqn:Hk.
    + destruct Hspec as (h' & -> & Hh'). cbn. rewrite Hh', Hov. case_decide.
      * exists (reposition env ov). split; [done|]. apply reposition_keeps.
      * by exists ov.
    + rewrite Hspec. by exists ov.
    + rewrite Hspec. by exists ov.
Qed.

(** X12. [add] does not look at the zoom: the wrapper of a new overlay is
    not hidden, whatever the viewbox is.  The next viewbox update decides
    with the policy the overlay has got: the defaults when the configuration
    has no [show], none when its [show] is falsy, so that the overlay stays
    shown, and the configuration's own policy otherwise, the defaults
    filling none of the bounds it leaves out.  The defaults hide below a
    scale of 0.7 and above a scale of 5. *)
Theorem added_overlay_visibility :
  (forall env element type overlay m id m1 vb,
     reachable env m -> add getBBox env element type overlay m = (Ret id, m1) ->
     exists ty cfg o w m2 w2,
       addArgs type overlay = (ty, Some cfg) /\
       _overlays m1 !! id = Some o /\
       wrapper_of m1 o = Some w /\ w_hidden w = false /\
       updateViewbox vb m1 = (Ret tt, m2) /\
       wrapper_of m2 o = Some w2 /\
       w_hidden w2 =
         match cfg_show cfg with
         | ShowAbsent => zoom_outside _overlayDefaults vb
         | ShowFalsy => false
         | ShowPolicy sh => zoom_outside sh vb
         end) /\
  (forall vb, zoom_outside _overlayDefaults vb = true <->
     (vb_scale vb < 7 # 10)%Q \/ (5 < vb_scale vb)%Q) /\
  (forall sh vb, maxZoom sh = None ->
     zoom_outside sh vb = true <-> exists z, minZoom sh = Some z /\ (vb_scale vb < z)%Q) /\
  (forall sh vb, minZoom sh = None ->
     zoom_outside sh vb = true <-> exists z, maxZoom sh = Some z /\ (z < vb_scale vb)%Q).
Proof.
  split_and!; [| |
    |intros sh vb Hmin; rewrite zoom_outside_iff, Hmin; split;
       [by intros [(z & ? & _)|?]|auto]].
  - intros env element type overlay m id m1 vb HI%reachable_Inv Hadd.
    pose proof (add_Inv env element type overlay m HI) as HI1. rewrite Hadd in HI1.
    cbn [snd] in HI1.
    destruct (add_Ret _ _ _ _ _ _ _ Hadd)
      as (ty & cfg & e & p & h & Hargs & He & Hp & Hh & Ht & Hjq & Hown & Hadd').
    rewrite Hadd' in Hadd.
    injection Hadd as Hid Hm1.
    destruct (updateViewbox_spec env vb m1 HI1) as (h' & Hrun & Hh').
    assert (Hio : _overlays m1 !! id = Some (length (heap m))).
    { rewrite <- Hm1, <- Hid. cbn. apply lookup_insert_eq. }
    assert (Hov : heap m1 !! length (heap m) =
              Some (set_htmlContainer
                      (Some (placed env e p {| w_left := None; w_top := None; w_hidden := false |}))
                      (assignOverlay ty cfg p h id e))).
    { rewrite <- Hm1, <- Hid. cbn.
      rewrite list_lookup_insert_eq by (rewrite length_app; cbn; lia). done. }
    destruct (Hh' (length (heap m))) as [Hl _]. specialize (Hl (ex_intro _ id Hio)).
    rewrite Hov in Hl. cbn [fmap option_fmap option_map] in Hl.
    exists ty, cfg, (length (heap m)),
      (placed env e p {| w_left := None; w_top := None; w_hidden := false |}).
    eexists.
    exists (default {| w_left := None; w_top := None; w_hidden := false |}
              (ov_htmlContainer
                 (reconcile vb
                    (set_htmlContainer
                       (Some (placed env e p {| w_left := None; w_top := None; w_hidden := false |}))
                       (assignOverlay ty cfg p h id e))))).
    split_and!; [done|done| |reflexivity|exact Hrun| |].
    + unfold wrapper_of. rewrite Hov. reflexivity.
    + unfold wrapper_of. cbn [heap]. rewrite Hl. unfold reconcile. cbn.
      by destruct (cfg_show cfg).
    + unfold reconcile. cbn. by destruct (cfg_show cfg).
  - intros vb. rewrite zoom_outside_iff. cbn. split.
    + intros [(z & [= <-] & ?)|(z & [= <-] & ?)]; auto.
    + intros [?|?]; eauto.
  - intros sh vb Hmax. rewrite zoom_outside_iff, Hmax. split.
    + by intros [?|(z & ? & _)].
    + auto.
Qed.


(** X14. In a reachable state the id [add] returns was not in use, and the
    call touches nothing but what it adds: the other ids of the dictionary,
    the overlay objects there were, the containers of the other elements
    and the root are as before, and the container of the element lists the
    new overlay after the overlays it had. *)
Theorem add_is_fresh_and_local env element type overlay m id m1 :
  reachable env m -> add getBBox env element type overlay m = (Ret id, m1) ->
  exists e o,
    resolveElement env element = Ret (Some e) /\
    _overlays m !! id = None /\ heap m !! o = None /\
    _overlays m1 = <[id := o]> (_overlays m) /\
    (forall o', o' <> o -> heap m1 !! o' = heap m !! o') /\
    (forall k, k <> containerKey env (Some (EObj e)) ->
       _overlayContainers m1 !! k = _overlayContainers m !! k) /\
    (exists c1, _overlayContainers m1 !! containerKey env (Some (EObj e)) = Some c1 /\
       c_overlays c1 =
         from_option c_overlays [] (_overlayContainers m !! containerKey env (Some (EObj e)))
           ++ [o]) /\
    _overlayRoot m1 = _overlayRoot m.
Proof.
  intros HI%reachable_Inv Hadd.
  destruct (add_Ret _ _ _ _ _ _ _ Hadd)
    as (ty & cfg & e & p & h & Hargs & He & Hp & Hh & Ht & Hjq & Hown & Hadd').
  rewrite Hadd' in Hadd.
  injection Hadd as Hid Hm1.
  exists e, (length (heap m)). split_and!.
  - done.
  - rewrite <- Hid. cbn. apply (inv_fresh _ _ HI). lia.
  - apply lookup_ge_None. lia.
  - by rewrite <- Hm1, <- Hid.
  - intros o' Hne. rewrite <- Hm1. cbn.
    rewrite list_lookup_insert_ne by done.
    destruct (decide (o' < length (heap m))) as [Hlt|Hge].
    + by rewrite lookup_app_l.
    + rewrite !lookup_ge_None_2; [done|lia|rewrite length_app; cbn; lia].
  - intros k Hne. rewrite <- Hm1. cbn. by rewrite lookup_insert_ne.
  - rewrite <- Hm1. cbn. rewrite lookup_insert_eq. eexists. split; [done|].
    cbn. destruct (_overlayContainers m !! _) as [c|]; cbn; [done|].
    by rewrite c_overlays__createOverlayContainer.
  - by rewrite <- Hm1.
Qed.

Lemma _updateOverlayContainer_idem env c :
  _updateOverlayContainer getBBox env (_updateOverlayContainer getBBox env c) =
    _updateOverlayContainer getBBox env c.
Proof.
  destruct (c_element c) as [s|e] eqn:He.
  - unfold _updateOverlayContainer at 1.
    rewrite c_element__updateOverlayContainer, c_overlays__updateOverlayContainer, He.
    unfold _updateOverlayContainer. by rewrite He.
  - rewrite (_updateOverlayContainer_anchor env c e He).
    by rewrite (_updateOverlayContainer_anchor env
                 {| c_html := anchor env e; c_element := EObj e;
                    c_overlays := c_overlays c |} e).
Qed.

(** X15. In a reachable state the viewbox update and the handler of
    [element.changed] are idempotent: run a second time with the same
    viewbox, or for the same element in the same environment, they end as
    the first run did and leave the manager exactly as the first run left
    it. *)
Theorem updates_are_idempotent env m :
  reachable env m ->
  (forall vb,
     updateViewbox vb (updateViewbox vb m).2 = updateViewbox vb m) /\
  (forall e,
     on_element_changed getBBox env e (on_element_changed getBBox env e m).2 =
       on_element_changed getBBox env e m).
Proof.
  intros HI%reachable_Inv. split.
  - intros vb. pose proof (updateViewbox_Inv env vb m HI) as HI1.
    destruct (updateViewbox_spec env vb m HI) as (h' & Hrun & Hh').
    rewrite Hrun in HI1 |- *. cbn [snd] in HI1 |- *.
    destruct (updateViewbox_spec env vb _ HI1) as (h'' & Hrun' & Hh'').
    rewrite Hrun'. cbn [_ids _overlays _overlayContainers]. do 2 f_equal.
    apply list_eq. intros o. destruct (Hh' o) as [Hl Hn], (Hh'' o) as [Hl' Hn'].
    cbn [heap] in Hl', Hn'. destruct (live_dec m o) as [Hlive|Hlive].
    + rewrite (Hl' Hlive), (Hl Hlive). destruct (heap m !! o) as [ov|]; [|done].
      cbn. by rewrite reconcile_idem.
    + by rewrite (Hn' Hlive).
  - intros e. pose proof (on_element_changed_Inv env e m HI) as HI1.
    pose proof (on_element_changed_spec env m e HI) as Hspec.
    set (k := containerKey env (Some (EObj e))) in *.
    destruct (getProperty (_overlayContainers m) k) as [c| |] eqn:Hk;
      [|by rewrite Hspec..].
    apply getProperty_Own in Hk.
    destruct Hspec as (h' & Hrun & Hh'). rewrite Hrun in HI1 |- *. cbn [snd] in HI1 |- *.
    pose proof (on_element_changed_spec env _ e HI1) as Hspec'. fold k in Hspec'.
    assert (Hk1 : _overlayContainers
                    (set_overlayContainers (alter (_updateOverlayContainer getBBox env) k)
                       (set_heap (fun _ => h') m)) !! k =
                  Some (_updateOverlayContainer getBBox env c)).
    { cbn [_overlayContainers set_overlayContainers set_heap].
      by rewrite lookup_alter, decide_True, Hk. }
    rewrite (getProperty_Some _ _ _ Hk1) in Hspec'.
    destruct Hspec' as (h'' & Hrun' & Hh''). rewrite Hrun'.
    rewrite c_overlays__updateOverlayContainer in Hh''. cbn [heap set_heap] in Hh''.
    unfold set_overlayContainers, set_heap.
    cbn [_ids _overlays _overlayContainers _overlayRoot heap]. do 2 f_equal.
    + apply map_eq. intros k'. rewrite !lookup_alter.
      destruct (decide (k = k')) as [<-|Hne]; [|done].
      rewrite decide_True, Hk by done.
      cbn [fmap option_fmap option_map]. by rewrite _updateOverlayContainer_idem.
    + apply list_eq. intros o. rewrite Hh'', !Hh'.
      destruct (decide (o ∈ c_overlays c)); [|done].
      destruct (heap m !! o) as [ov|]; [|done].
      cbn [fmap option_fmap option_map]. by rewrite reposition_idem.
Qed.

(** X16. In a reachable state, [remove] of the id of an overlay takes it
    out of the id dictionary, so that [get] of the id is [undefined], and
    out of the container of its element, which keeps its other overlays in
    their order; the overlay is then in no container at all, and a second
    [remove] of the id changes nothing.  [remove] of an id that is not in
    the dictionary returns without changing the manager, unless the id
    names a property of [Object.prototype]: then it throws a TypeError,
    the manager unchanged. *)
Theorem remove_by_id env m i :
  reachable env m ->
  (forall o, _overlays m !! i = Some o ->
     exists m' e c c',
       remove getBBox env (SearchId i) m = (Ret tt, m') /\
       get env (SearchId i) m' = Ret GUndefined /\
       (ov_element <$> heap m !! o) = Some (Some e) /\
       _overlayContainers m !! containerKey env (Some (EObj e)) = Some c /\
       o ∈ c_overlays c /\
       _overlayContainers m' !! containerKey env (Some (EObj e)) = Some c' /\
       c_overlays c' = filter (fun o' => o' ∉ [o]) (c_overlays c) /\
       (forall k c'', _overlayContainers m' !! k = Some c'' -> o ∉ c_overlays c'') /\
       remove getBBox env (SearchId i) m' = (Ret tt, m')) /\
  (_overlays m !! i = None -> inherited i = false ->
   remove getBBox env (SearchId i) m = (Ret tt, m)) /\
  (_overlays m !! i = None -> inherited i = true ->
   remove getBBox env (SearchId i) m = (Throw TypeError, m)).
Proof.
  intros Hr. pose proof (reachable_Inv_own _ _ Hr) as [Hown _].
  apply reachable_Inv in Hr as HI.
  split_and!; [|apply remove_id_absent|apply remove_id_inherited].
  intros o Hio.
  pose proof (Hown i (mk_is_Some _ _ Hio)) as Hi.
  destruct (Inv_live _ _ _ _ HI Hio) as (ov & e & c & Hov & Hid & He & Hw & Hk & Hin & Heq).
  destruct (removed_gone _ _ _ _ HI Hio) as [Hgone Hnotin].
  pose proof (without_removed _ _ _ _ HI Hio) as (_ & _ & _ & Hd & Hc).
  destruct (proj2 (Hd _) (mk_is_Some _ _ Hk)) as [c' Hk'].
  exists (removed env o m), e, c, c'. split_and!; try done.
  - by apply remove_id_live.
  - rewrite get_id. unfold getProperty.
    by rewrite Hgone, Hi, (Inv_truthy_id _ _ _ _ HI Hio).
  - by rewrite Hov, <- He.
  - by eapply Hc.
  - by apply remove_id_absent.
Qed.


End Properties.

(** ** The properties on the example *)

Lemma pair_eta_fst {A B} (p : A * B) (a : A) : p.1 = a -> p = (a, p.2).
Proof. destruct p. cbn. by intros ->. Defined.

Lemma same_ids_refl env : same_ids env env.
Proof. by intros e. Qed.

Lemma same_ids_resized : same_ids Example.env_resized Example.env.
Proof. by intros e. Qed.

Lemma reachable_m1 env :
  same_ids env Example.env -> reachable Example.bbox env Example.m1.
Proof.
  intros Hs. exists {| prefix := "ov-"; counter := 0 |}.
  exists [(Example.env, CallAdd (Some (EId "shape1")) (TypeStr "badge") (Some Example.badge))].
  split; [by repeat constructor|]. vm_compute. reflexivity.
Qed.

Lemma reachable_m2 : reachable Example.bbox Example.env Example.m2.
Proof.
  exists {| prefix := "ov-"; counter := 0 |}.
  exists [(Example.env, CallAdd (Some (EId "shape1")) (TypeStr "badge") (Some Example.badge));
          (Example.env, CallAdd (Some (EObj 0)) (TypeObj Example.note) None)].
  split; [repeat constructor; apply same_ids_refl|]. vm_compute. reflexivity.
Qed.

(** C4. The zoom-range pass does not look at [show.trigger]: the badge of
    the example has a manual trigger and is shown; the viewbox update at
    scale 3, outside its range from 1 to 2, hides it.  In general the
    outcome of the range check is the same whatever the trigger. *)
Theorem manual_trigger_is_reconciled :
  (ov_show <$> heap Example.m1 !! 0) =
    Some (Some {| trigger := Some "manual"; minZoom := Some 1%Q; maxZoom := Some 2%Q |}) /\
  (w_hidden <$> wrapper_of Example.m1 0) = Some false /\
  (w_hidden <$> wrapper_of (updateViewbox Example.zoomed_out Example.m1).2 0) = Some true /\
  (forall trig sh vb,
     zoom_outside {| trigger := trig; minZoom := minZoom sh; maxZoom := maxZoom sh |} vb =
     zoom_outside sh vb).
Proof. split_and!; [vm_compute; reflexivity..|done]. Qed.



(** C6. [remove] of an id that is not in the dictionary throws when the id
    names a property of [Object.prototype]: in the example after the first
    [add] the dictionary has no overlay under ["toString"], [get] returns
    the inherited property, and [remove] throws a TypeError where it
    should return. *)
Theorem remove_inherited_id_throws :
  reachable Example.bbox Example.env Example.m1 /\
  _overlays Example.m1 !! "toString" = None /\
  get Example.env (SearchId "toString") Example.m1 = Ret GInherited /\
  remove Example.bbox Example.env (SearchId "toString") Example.m1 =
    (Throw TypeError, Example.m1).
Proof.
  split_and!; [apply reachable_m1, same_ids_refl|vm_compute; reflexivity..].
Qed.

(** C8. [get] with an element that has no container does not return an
    empty array when the id of the element names a property of
    [Object.prototype]: in the example after the first [add] there is no
    container under ["toString"], and [get] with that element and no type
    returns [undefined]. *)
Theorem get_inherited_element_undefined :
  reachable Example.bbox Example.env Example.m1 /\
  _overlayContainers Example.m1 !! "toString" = None /\
  containerKey Example.env (Some (EId "toString")) = "toString" /\
  get Example.env
    (SearchObj {| s_id := None; s_element := Some (EId "toString"); s_type := None |})
    Example.m1 = Ret GUndefined.
Proof.
  split_and!; [apply reachable_m1, same_ids_refl|vm_compute; reflexivity..].
Qed.

Lemma add_m0 :
  add Example.bbox Example.env (Some (EId "shape1")) (TypeStr "badge") (Some Example.badge)
      Example.m0 = (Ret "ov-1", Example.m1).
Proof. apply pair_eta_fst. vm_compute. reflexivity. Defined.

Lemma add_id_unique_and_indexed_witness :
  get Example.env (SearchId "ov-1") Example.m1 = Ret (GOverlay 0).
Proof.
  destruct (proj2 (add_id_unique_and_indexed Example.bbox) _ _ _ _ _ _ _ add_m0)
    as (ty & cfg & e & p & h & _ & _ & _ & _ & Hget & _).
  exact Hget.
Defined.

Lemma right_bottom_anchoring_witness :
  exists l,
    (wrapper_of (on_element_changed Example.bbox Example.env_resized 0 Example.m1).2 0
       ≫= w_left) = Some l /\
    (l == 140 - 10)%Q.
Proof.
  destruct (proj2 (right_bottom_anchoring Example.bbox)
              Example.env_resized Example.m1 "ov-1" 0 Example.badge_object 0
              (reachable_m1 _ same_ids_resized))
    as (m' & ov' & w' & Hrun & _ & Hov' & _ & _ & Hw' & Hanch & _).
  - vm_compute. reflexivity.
  - vm_compute. reflexivity.
  - reflexivity.
  - destruct (Hanch 10%Q eq_refl) as (l & Hl & Heq).
    exists l. rewrite Hrun. unfold wrapper_of. cbn [snd]. rewrite Hov'. cbn. rewrite Hw'. cbn.
    split; [exact Hl|exact Heq].
Defined.

Lemma zoom_range_visibility_witness :
  (w_hidden <$> wrapper_of (updateViewbox Example.zoomed_out Example.m1).2 0) = Some true.
Proof.
  destruct (proj1 (zoom_range_visibility Example.bbox) Example.env Example.zoomed_out
              Example.m1 (reachable_m1 _ (same_ids_refl _)))
    as (m' & Hrun & Hvis).
  destruct (Hvis "ov-1" 0 Example.badge_object
              {| trigger := Some "manual"; minZoom := Some 1%Q; maxZoom := Some 2%Q |})
    as (ov' & w' & _ & Hov' & _ & Hw' & Hhid).
  - vm_compute. reflexivity.
  - vm_compute. reflexivity.
  - reflexivity.
  - rewrite Hrun. unfold wrapper_of. cbn [snd]. rewrite Hov'. cbn. rewrite Hw'. cbn.
    rewrite Hhid. vm_compute. reflexivity.
Defined.

Lemma remove_by_id_witness :
  exists m',
    remove Example.bbox Example.env (SearchId "ov-1") Example.m2 = (Ret tt, m') /\
    get Example.env (SearchId "ov-1") m' = Ret GUndefined /\
    remove Example.bbox Example.env (SearchId "ov-1") m' = (Ret tt, m').
Proof.
  destruct (proj1 (remove_by_id Example.bbox Example.env Example.m2 "ov-1" reachable_m2) 0)
    as (m' & e & c & c' & Hrun & Hget & _ & _ & _ & _ & _ & _ & Hagain).
  - vm_compute. reflexivity.
  - exists m'. split_and!; assumption.
Defined.



Lemma debounce_single_pass_witness :
  let vb (s : Q) := {| vb_x := 0; vb_y := 0; vb_scale := s |} in
  let w := fire_all None [(0%N, vb 1%Q); (50%N, vb 2%Q); (100%N, vb 3%Q)]
             (new_World Example.m1) in
  passes w = [] /\ passes (elapse 400 w) = [vb 3%Q] /\
  (w_hidden <$> wrapper_of (mgr (elapse 400 w)) 0) = Some true.
Proof.
  intros vb w.
  destruct (debounce_single_pass Example.bbox None Example.env (0%N, vb 1%Q)
              [(50%N, vb 2%Q); (100%N, vb 3%Q)] (new_World Example.m1))
    as (_ & _ & Hduring & _ & _ & _ & Hafter).
  - reflexivity.
  - reflexivity.
  - exact (reachable_m1 _ (same_ids_refl _)).
  - cbn. unfold wait. lia.
  - split; [exact Hduring|].
    destruct (Hafter 400%N) as (Hpasses & _ & _ & Hvis & _); [cbn; unfold wait; lia|].
    split; [exact Hpasses|].
    exact (Hvis "ov-1" 0 Example.badge_object
             {| trigger := Some "manual"; minZoom := Some 1%Q; maxZoom := Some 2%Q |}
             eq_refl eq_refl eq_refl).
Defined.

Lemma viewbox_change_hides_root_witness :
  let vb (s : Q) := {| vb_x := 0; vb_y := 0; vb_scale := s |} in
  let w := fire_all None [(0%N, vb 1%Q); (50%N, vb 2%Q); (100%N, vb 3%Q)]
             (new_World Example.m1) in
  displayed (mgr (elapse 399 w)) 0 = false /\
  root_hidden (_overlayRoot (mgr (elapse 400 w))) = false.
Proof.
  intros vb w.
  destruct (proj2 (proj2 (proj2 (viewbox_change_hides_root Example.bbox))) None
              (0%N, vb 1%Q) [(50%N, vb 2%Q); (100%N, vb 3%Q)] (new_World Example.m1))
    as (Hduring & Hafter).
  - reflexivity.
  - reflexivity.
  - cbn. unfold wait. lia.
  - split.
    + destruct (Hduring 399%N) as (_ & _ & Hnone); [cbn; unfold wait; lia|apply Hnone].
    + apply (Hafter Example.env 400%N (reachable_m1 _ (same_ids_refl _))).
      cbn. unfold wait. lia.
Defined.

(** ** The further properties on the example *)

Lemma reachable_m0 : reachable Example.bbox Example.env Example.m0.
Proof. exists {| prefix := "ov-"; counter := 0 |}, []. by split. Qed.

Lemma add_m1 :
  add Example.bbox Example.env (Some (EObj 0)) (TypeObj Example.note) None Example.m1 =
    (Ret "ov-2", Example.m2).
Proof. apply pair_eta_fst. vm_compute. reflexivity. Defined.


Lemma get_by_type_witness :
  exists l,
    get Example.env
      (SearchObj {| s_id := None; s_element := None; s_type := Some "badge" |})
      Example.m2 = Ret (GArray l) /\
    NoDup l /\ 0 ∈ l.
Proof.
  destruct (get_by_type Example.bbox Example.env Example.m2
              {| s_id := None; s_element := None; s_type := Some "badge" |} "badge"
              reachable_m2 eq_refl eq_refl eq_refl)
    as (l & Hget & Hnd & _ & Hin).
  exists l. split_and!; [exact Hget|exact Hnd|].
  apply Hin. exists "ov-1", Example.badge_object.
  split_and!; vm_compute; reflexivity.
Defined.

Lemma remove_removes_what_get_finds_witness :
  exists m',
    remove Example.bbox Example.env (SearchObj (Example.by_element (Some "badge")))
      Example.m2 = (Ret tt, m') /\
    _ids m' = _ids Example.m2 /\
    exists r',
      get Example.env (SearchObj (Example.by_element (Some "badge"))) m' = Ret r' /\
      found r' = [].
Proof.
  destruct (proj2 (proj2 (remove_removes_what_get_finds Example.bbox Example.env Example.m2
                            (SearchObj (Example.by_element (Some "badge"))) reachable_m2))
              (GArray [0]))
    as (m' & Hrun & Hids & _ & _ & _ & _ & _ & r' & Hget & _ & Hnone).
  - vm_compute. reflexivity.
  - discriminate.
  - exists m'. split_and!; [exact Hrun|exact Hids|].
    exists r'. split; assumption.
Defined.


Lemma add_remove_round_trip_witness :
  exists m',
    remove Example.bbox Example.env (SearchId "ov-1") Example.m1 = (Ret tt, m') /\
    _overlays m' = _overlays Example.m0 /\
    _overlayRoot m' = _overlayRoot Example.m0.
Proof.
  destruct (add_remove_round_trip Example.bbox Example.env (Some (EId "shape1")) (TypeStr "badge")
              (Some Example.badge) Example.m0 "ov-1" Example.m1 reachable_m0 add_m0)
    as (m' & e & _ & Hrun & Hovs & _ & _ & Hroot & _).
  exists m'. split_and!; assumption.
Defined.

Lemma containers_are_kept_witness :
  exists c',
    _overlayContainers
      (run Example.bbox [(Example.env, EvElementRemove 0)] Example.m2).2 !! "shape1" =
      Some c' /\
    c_element c' = EObj 0.
Proof.
  destruct (_overlayContainers Example.m2 !! "shape1") as [c|] eqn:Hc;
    [|vm_compute in Hc; discriminate].
  destruct (proj2 (containers_are_kept Example.bbox Example.env Example.m2 reachable_m2)
              [(Example.env, EvElementRemove 0)] "shape1" c)
    as (c' & Hc' & He).
  - by repeat constructor.
  - exact Hc.
  - exists c'. split; [exact Hc'|]. rewrite He.
    vm_compute in Hc. injection Hc as <-. reflexivity.
Defined.

Lemma element_changed_effect_witness :
  exists m',
    on_element_changed Example.bbox Example.env_resized 0 Example.m1 = (Ret tt, m') /\
    _overlays m' = _overlays Example.m1 /\
    _overlayRoot m' = _overlayRoot Example.m1.
Proof.
  destruct (_overlayContainers Example.m1 !! "shape1") as [c|] eqn:Hc;
    [|vm_compute in Hc; discriminate].
  destruct (proj2 (proj2 (element_changed_effect Example.bbox Example.env_resized
                            Example.m1 0 (reachable_m1 _ same_ids_resized))) c Hc)
    as (m' & e' & Hrun & _ & Hovs & Hroot & _).
  exists m'. split_and!; assumption.
Defined.

Lemma left_top_placement_witness :
  (wrapper_of (on_element_changed Example.bbox Example.env_resized 0 Example.m1).2 0
     ≫= w_top) = Some 5%Q.
Proof.
  destruct (proj1 (proj2 (left_top_placement Example.bbox))
              Example.env_resized Example.m1 "ov-1" 0 Example.badge_object 0
              (reachable_m1 _ same_ids_resized))
    as (m' & ov' & w' & Hrun & Hov' & Hw' & _ & Htop).
  - vm_compute. reflexivity.
  - vm_compute. reflexivity.
  - reflexivity.
  - rewrite Hrun. unfold wrapper_of. cbn [snd]. rewrite Hov'. cbn. rewrite Hw'. cbn.
    rewrite (Htop eq_refl). reflexivity.
Defined.

Lemma root_transform_maps_witness :
  exists m' mx,
    updateViewbox Example.zoomed_out Example.m1 = (Ret tt, m') /\
    root_transform (_overlayRoot m') = Some mx /\
    ((apply_matrix mx (10, 20)%Q).1 == 30)%Q.
Proof.
  destruct (root_transform_maps Example.bbox Example.env Example.zoomed_out Example.m1
              (reachable_m1 _ (same_ids_refl _)))
    as (m' & mx & Hrun & _ & Hmx & Hmap).
  exists m', mx. split_and!; [exact Hrun|exact Hmx|].
  destruct (Hmap 10%Q 20%Q) as [Hx _]. rewrite Hx. vm_compute. reflexivity.
Defined.


Lemma passes_are_independent_witness :
  exists m' ov',
    updateViewbox Example.zoomed_out Example.m1 = (Ret tt, m') /\
    heap m' !! 0 = Some ov' /\
    ov_position ov' = ov_position Example.badge_object.
Proof.
  destruct (proj1 (passes_are_independent Example.bbox Example.env Example.m1
                     (reachable_m1 _ (same_ids_refl _))) Example.zoomed_out)
    as (m' & Hrun & Hkeep).
  destruct (Hkeep 0 Example.badge_object) as (ov' & Hov' & Hpos & _).
  - vm_compute. reflexivity.
  - exists m', ov'. split_and!; assumption.
Defined.

Lemma added_overlay_visibility_witness :
  exists o m' w',
    _overlays Example.m1 !! "ov-1" = Some o /\
    updateViewbox Example.zoomed_out Example.m1 = (Ret tt, m') /\
    wrapper_of m' o = Some w' /\ w_hidden w' = true.
Proof.
  destruct (proj1 (added_overlay_visibility Example.bbox)
              Example.env (Some (EId "shape1")) (TypeStr "badge") (Some Example.badge)
              Example.m0 "ov-1" Example.m1 Example.zoomed_out reachable_m0 add_m0)
    as (ty & cfg & o & w & m' & w' & Hargs & Hio & _ & _ & Hrun & Hw' & Hhid).
  cbn in Hargs. injection Hargs as <- <-.
  exists o, m', w'. split_and!; [exact Hio|exact Hrun|exact Hw'|].
  rewrite Hhid. vm_compute. reflexivity.
Defined.


Lemma add_is_fresh_and_local_witness :
  _overlays Example.m1 !! "ov-2" = None /\
  _overlayRoot Example.m2 = _overlayRoot Example.m1.
Proof.
  destruct (add_is_fresh_and_local Example.bbox Example.env (Some (EObj 0)) (TypeObj Example.note)
              None Example.m1 "ov-2" Example.m2 (reachable_m1 _ (same_ids_refl _)) add_m1)
    as (e & o & _ & Hfresh & _ & _ & _ & _ & _ & Hroot).
  split; assumption.
Defined.

Lemma updates_are_idempotent_witness :
  updateViewbox Example.zoomed_out (updateViewbox Example.zoomed_out Example.m1).2 =
    updateViewbox Example.zoomed_out Example.m1.
Proof.
  exact (proj1 (updates_are_idempotent Example.bbox Example.env Example.m1
                  (reachable_m1 _ (same_ids_refl _))) Example.zoomed_out).
Defined.
